(** * awesome: configuration binding (config.c)

    A shallow embedding of [config.c]: the name registries
    ([KeyModList], [LayoutsList], [KeyfuncList]), the two lookups
    ([key_mask_lookup], [name_func_lookup]), the section binder
    [parse_config] and the Num Lock resolver [get_numlockmask],
    followed by the properties of the binder that the specification
    states.

    Conventions.
    - A C string ([const char *]) is an [option string]: [None] is the
      null pointer, [Some s] holds the bytes before the terminating NUL.
    - Integers ([int], [unsigned int], [KeySym], [KeyCode]) are [Z].
    - An array is a [list]; reading an index that is not in the list is
      undefined behaviour ([Undef]).
    - [stderr] is the list of the messages written, oldest first. *)

From Stdlib Require Import ZArith List String Ascii Bool Lia.
From Stdlib Require QArith DecimalString.
Import ListNotations.

Local Open Scope string_scope.
Local Open Scope Z_scope.

Set Implicit Arguments.

(* ================================================================== *)
(** ** C strings (util.h) *)

Module CString.

(** [strcmp]: bytes are compared as [unsigned char]; the result is
    reduced to its sign, which is all that C promises and all that
    the callers test. *)
Fixpoint strcmp (a b : string) : Z :=
  match a, b with
  | EmptyString, EmptyString => 0
  | EmptyString, String _ _ => -1
  | String _ _, EmptyString => 1
  | String c a', String d b' =>
      match (N_of_ascii c ?= N_of_ascii d)%N with
      | Eq => strcmp a' b'
      | Lt => -1
      | Gt => 1
      end
  end.

(** [strncmp]: as [strcmp], on at most [n] bytes. *)
Fixpoint strncmp (a b : string) (n : nat) : Z :=
  match n with
  | O => 0
  | S n' =>
      match a, b with
      | EmptyString, EmptyString => 0
      | EmptyString, String _ _ => -1
      | String _ _, EmptyString => 1
      | String c a', String d b' =>
          match (N_of_ascii c ?= N_of_ascii d)%N with
          | Eq => strncmp a' b' n'
          | Lt => -1
          | Gt => 1
          end
      end
  end.

(** [NONULL(x)]: the empty string for a null pointer. *)
Definition NONULL (s : option string) : string :=
  match s with
  | Some x => x
  | None => ""
  end.

(** Modelled from the spec: [a_strcmp], [a_strncmp], [a_strlen] and
    [a_strdup] are defined in util.h, which is not among the sources.
    The spec has names compared exactly and case-sensitively, and a null
    name resolve to nothing: they are [strcmp], [strncmp], [strlen] and
    [strdup] of libc with a null pointer read as the empty string.  The
    third argument of [a_strncmp] is the bound of [strncmp], the number
    of bytes that are compared at most. *)
Definition a_strcmp (a b : option string) : Z :=
  strcmp (NONULL a) (NONULL b).

Definition a_strncmp (a b : option string) (n : nat) : Z :=
  strncmp (NONULL a) (NONULL b) n.

Definition a_strlen (s : option string) : Z :=
  match s with
  | Some x => Z.of_nat (String.length x)
  | None => 0
  end.

(** A copy has the contents of the original; a null pointer is
    copied as a null pointer. *)
Definition a_strdup (s : option string) : option string := s.

End CString.
Import CString.

(* ================================================================== *)
(** ** Outcomes of effectful code *)

(** What a call does besides computing a value: it writes to [stderr],
    and it may end the process ([eprint], [die]) or leave the behaviour
    of the program undefined. *)
Inductive outcome (A : Type) : Type :=
| Ret (a : A) (err : list string)
| Exit (err : list string)
| Undef.

Arguments Exit {A} err.
Arguments Undef {A}.

Definition ret {A} (a : A) : outcome A := Ret a [].

Definition bind {A B} (m : outcome A) (f : A -> outcome B) : outcome B :=
  match m with
  | Ret a l =>
      match f a with
      | Ret b l' => Ret b (l ++ l')
      | Exit l' => Exit (l ++ l')
      | Undef => Undef
      end
  | Exit l => Exit l
  | Undef => Undef
  end.

Notation "x <- m ;; k" := (bind m (fun x => k))
  (at level 61, m at next level, right associativity).
Notation "m ;;; k" := (bind m (fun _ => k))
  (at level 61, right associativity).

Definition nl : string := String (ascii_of_nat 10) EmptyString.

(** [fprintf(stderr, msg)]. *)
Definition fprintf_stderr (msg : string) : outcome unit := Ret tt [msg].

(** Modelled from the spec: [eprint] and [die] (util.c) are not among
    the sources; both write the diagnostic and terminate the process
    ("abort startup ... with a diagnostic"). *)
Definition eprint {A} (msg : string) : outcome A := Exit [msg].
Definition die {A} (msg : string) : outcome A := Exit [msg].

(** The messages written so far, whatever the outcome. *)
Definition stderr_of {A} (m : outcome A) : list string :=
  match m with
  | Ret _ l => l
  | Exit l => l
  | Undef => []
  end.

Definition is_exit {A} (m : outcome A) : bool :=
  match m with
  | Exit _ => true
  | _ => false
  end.

(* ================================================================== *)
(** ** The registries *)

(** Modifier masks of the X protocol (X.h). *)
Definition ShiftMask : Z := Z.shiftl 1 0.
Definition LockMask : Z := Z.shiftl 1 1.
Definition ControlMask : Z := Z.shiftl 1 2.
Definition Mod1Mask : Z := Z.shiftl 1 3.
Definition Mod2Mask : Z := Z.shiftl 1 4.
Definition Mod3Mask : Z := Z.shiftl 1 5.
Definition Mod4Mask : Z := Z.shiftl 1 6.
Definition Mod5Mask : Z := Z.shiftl 1 7.

(** The arrangement functions of layouts/*.h. *)
Inductive layout_fn : Type :=
| layout_tile
| layout_tileleft
| layout_max
| layout_floating.

(** The bindable callbacks. *)
Inductive uicb_fn : Type :=
| uicb_spawn | uicb_exec
| uicb_killclient | uicb_moveresize | uicb_settrans | uicb_setborder
| uicb_swapnext | uicb_swapprev
| uicb_tag | uicb_togglefloating | uicb_toggleview | uicb_toggletag
| uicb_view | uicb_tag_prev_selected | uicb_tag_viewprev | uicb_tag_viewnext
| uicb_setlayout | uicb_focusnext | uicb_focusprev | uicb_togglemax
| uicb_toggleverticalmax | uicb_togglehorizontalmax | uicb_zoom
| uicb_setmwfact | uicb_setnmaster | uicb_setncol
| uicb_focusnextscreen | uicb_focusprevscreen | uicb_movetoscreen
| uicb_quit
| uicb_togglebar.

(** Link a name to a function. *)
Module NameFuncLink.
Record t (F : Type) : Type := mk { name : option string; func : option F }.
Arguments mk {F} name func.
End NameFuncLink.

(** Link a name to a key symbol. *)
Module KeyMod.
Record t : Type := mk { name : option string; keysym : Z }.
End KeyMod.

(** List of keyname and corresponding X11 mask codes.  The array has
    nine elements; none of them has a null name. *)
Definition KeyModList : list KeyMod.t :=
  [ KeyMod.mk (Some "Shift") ShiftMask;
    KeyMod.mk (Some "Lock") LockMask;
    KeyMod.mk (Some "Control") ControlMask;
    KeyMod.mk (Some "Mod1") Mod1Mask;
    KeyMod.mk (Some "Mod2") Mod2Mask;
    KeyMod.mk (Some "Mod3") Mod3Mask;
    KeyMod.mk (Some "Mod4") Mod4Mask;
    KeyMod.mk (Some "Mod5") Mod5Mask;
    KeyMod.mk (Some "None") 0 ].

(** List of available layouts and link between name and functions. *)
Definition LayoutsList : list (NameFuncLink.t layout_fn) :=
  [ NameFuncLink.mk (Some "tile") (Some layout_tile);
    NameFuncLink.mk (Some "tileleft") (Some layout_tileleft);
    NameFuncLink.mk (Some "max") (Some layout_max);
    NameFuncLink.mk (Some "floating") (Some layout_floating);
    NameFuncLink.mk None None ].

(** List of available UI bindable callbacks and functions. *)
Definition KeyfuncList : list (NameFuncLink.t uicb_fn) :=
  [ NameFuncLink.mk (Some "spawn") (Some uicb_spawn);
    NameFuncLink.mk (Some "exec") (Some uicb_exec);
    NameFuncLink.mk (Some "killclient") (Some uicb_killclient);
    NameFuncLink.mk (Some "moveresize") (Some uicb_moveresize);
    NameFuncLink.mk (Some "settrans") (Some uicb_settrans);
    NameFuncLink.mk (Some "setborder") (Some uicb_setborder);
    NameFuncLink.mk (Some "swapnext") (Some uicb_swapnext);
    NameFuncLink.mk (Some "swapprev") (Some uicb_swapprev);
    NameFuncLink.mk (Some "tag") (Some uicb_tag);
    NameFuncLink.mk (Some "togglefloating") (Some uicb_togglefloating);
    NameFuncLink.mk (Some "toggleview") (Some uicb_toggleview);
    NameFuncLink.mk (Some "toggletag") (Some uicb_toggletag);
    NameFuncLink.mk (Some "view") (Some uicb_view);
    NameFuncLink.mk (Some "view_tag_prev_selected") (Some uicb_tag_prev_selected);
    NameFuncLink.mk (Some "view_tag_previous") (Some uicb_tag_viewprev);
    NameFuncLink.mk (Some "view_tag_next") (Some uicb_tag_viewnext);
    NameFuncLink.mk (Some "setlayout") (Some uicb_setlayout);
    NameFuncLink.mk (Some "focusnext") (Some uicb_focusnext);
    NameFuncLink.mk (Some "focusprev") (Some uicb_focusprev);
    NameFuncLink.mk (Some "togglemax") (Some uicb_togglemax);
    NameFuncLink.mk (Some "toggleverticalmax") (Some uicb_toggleverticalmax);
    NameFuncLink.mk (Some "togglehorizontalmax") (Some uicb_togglehorizontalmax);
    NameFuncLink.mk (Some "zoom") (Some uicb_zoom);
    NameFuncLink.mk (Some "setmwfact") (Some uicb_setmwfact);
    NameFuncLink.mk (Some "setnmaster") (Some uicb_setnmaster);
    NameFuncLink.mk (Some "setncol") (Some uicb_setncol);
    NameFuncLink.mk (Some "focusnextscreen") (Some uicb_focusnextscreen);
    NameFuncLink.mk (Some "focusprevscreen") (Some uicb_focusprevscreen);
    NameFuncLink.mk (Some "movetoscreen") (Some uicb_movetoscreen);
    NameFuncLink.mk (Some "quit") (Some uicb_quit);
    NameFuncLink.mk (Some "togglebar") (Some uicb_togglebar);
    NameFuncLink.mk None None ].

(** The loop of [key_mask_lookup], [for(i = 0; tbl[i].name; i++)], on
    the part of the array that starts at index [i].  An empty remainder
    means that [tbl[i]] is read after the last element. *)
Fixpoint key_mask_scan (tbl : list KeyMod.t) (keyname : option string)
  : outcome Z :=
  match tbl with
  | [] => Undef
  | e :: rest =>
      match KeyMod.name e with
      | None => ret 0
      | Some n =>
          if a_strcmp keyname (Some n) =? 0
          then ret (KeyMod.keysym e)
          else key_mask_scan rest keyname
      end
  end.

(** Lookup for a key mask from its name. *)
Definition key_mask_lookup (keyname : option string) : outcome Z :=
  match keyname with
  | Some _ => key_mask_scan KeyModList keyname
  | None => ret 0
  end.

(** The loop of [name_func_lookup], on the part of the array that
    starts at index [i]. *)
Fixpoint name_func_scan {F} (tbl : list (NameFuncLink.t F))
  (funcname : option string) : outcome (option F) :=
  match tbl with
  | [] => Undef
  | e :: rest =>
      match NameFuncLink.name e with
      | None => ret None
      | Some n =>
          if a_strcmp funcname (Some n) =? 0
          then ret (NameFuncLink.func e)
          else name_func_scan rest funcname
      end
  end.

(** Lookup for a function pointer from its name in the given
    NameFuncLink list. *)
Definition name_func_lookup {F} (funcname : option string)
  (list : option (list (NameFuncLink.t F))) : outcome (option F) :=
  match funcname, list with
  | Some _, Some tbl => name_func_scan tbl funcname
  | _, _ => ret None
  end.


(* ================================================================== *)
(** ** The parsed configuration (libconfuse) *)

(** The tree that [cfg_parse] fills in.  A field that the file sets is
    [Some]; a field that the file leaves out is [None].  The sections
    [tag], [layout], [rule] and [key] are repeated ([CFGF_MULTI]); [tag]
    and [layout] carry a title ([CFGF_TITLE]). *)
Module Cfg.
Record general : Type := mk_general {
  border : option Z;
  snap : option Z;
  resize_hints : option bool;
  opacity_unfocused : option Z;
  focus_move_pointer : option bool;
  font : option string }.

Record colors : Type := mk_colors {
  normal_border : option string;
  normal_bg : option string;
  normal_fg : option string;
  focus_border : option string;
  focus_bg : option string;
  focus_fg : option string }.

Record statusbar : Type := mk_statusbar {
  position : option string }.

Record tag : Type := mk_tag {
  tag_title : string;
  tag_layout : option string }.

Record layout : Type := mk_layout {
  layout_title : string;
  layout_symbol : option string }.

Record layouts : Type := mk_layouts {
  layout_secs : list layout;
  mwfact : option QArith_base.Q;
  nmaster : option Z;
  ncol : option Z }.

Record rule : Type := mk_rule {
  rule_name : option string;
  rule_tags : option string;
  rule_float : option bool }.

Record key : Type := mk_key {
  key_modkey : option (list string);
  key_key : option string;
  key_command : option string;
  key_arg : option string }.

Record keys : Type := mk_keys {
  modkey : option string;
  key_secs : list key }.

Record t : Type := mk {
  sec_general : general;
  sec_colors : colors;
  sec_statusbar : statusbar;
  sec_tags : list tag;
  sec_layouts : layouts;
  sec_rules : list rule;
  sec_keys : keys }.
End Cfg.

(** The defaults that the option tables of [parse_config] declare
    ([general_opts], [colors_opts], ..., [keys_opts]). *)
Module Schema.
Definition border : Z := 1.
Definition snap : Z := 8.
Definition resize_hints : bool := false.
Definition opacity_unfocused : Z := 100.
Definition focus_move_pointer : bool := false.
Definition font : option string := Some "mono-12".

Definition normal_border : option string := Some "#111111".
Definition normal_bg : option string := Some "#111111".
Definition normal_fg : option string := Some "#eeeeee".
Definition focus_border : option string := Some "#6666ff".
Definition focus_bg : option string := Some "#6666ff".
Definition focus_fg : option string := Some "#ffffff".

Definition position : option string := Some "top".

Definition tag_layout : option string := Some "tile".

Definition layout_symbol : option string := Some "???".
Definition mwfact : QArith_base.Q := QArith_base.Qmake 1 2.
Definition nmaster : Z := 1.
Definition ncol : Z := 1.

Definition rule_name : option string := Some "".
Definition rule_tags : option string := Some "".
Definition rule_float : bool := false.

Definition key_modkey : list string := ["Mod4"].
Definition key_key : option string := Some "None".
Definition key_command : option string := Some "".
Definition key_arg : option string := None.

Definition modkey : option string := Some "Mod4".
End Schema.

(** The accessors: the value of the file, or else the default of the
    option table. *)
Definition cfg_get {A} (v : option A) (dflt : A) : A :=
  match v with
  | Some x => x
  | None => dflt
  end.

Definition cfg_getint (v : option Z) (dflt : Z) : Z := cfg_get v dflt.
Definition cfg_getbool (v : option bool) (dflt : bool) : bool := cfg_get v dflt.
Definition cfg_getfloat (v : option QArith_base.Q) (dflt : QArith_base.Q)
  : QArith_base.Q := cfg_get v dflt.

(** A string option yields a pointer, which is null only when the
    default is ([arg]). *)
Definition cfg_getstr (v : option string) (dflt : option string)
  : option string :=
  match v with
  | Some s => Some s
  | None => dflt
  end.

(** The values of a list option. *)
Definition cfg_strlist (v : option (list string)) (dflt : list string)
  : list string := cfg_get v dflt.

Definition cfg_size {A} (l : list A) : Z := Z.of_nat (List.length l).

(* ================================================================== *)
(** ** The X server *)

Record XColor : Type := mk_XColor {
  pixel : Z;
  red : Z;
  green : Z;
  blue : Z }.

Record XModifierKeymap : Type := mk_XModifierKeymap {
  max_keypermod : Z;
  modifiermap : list Z }.

(** What the display answers to the requests that [parse_config] and
    [get_numlockmask] make.  A font or a colour that cannot be had is
    [None]. *)
Record Display : Type := mk_Display {
  get_phys_screen : Z -> Z;
  XftFontOpenName : Z -> option string -> option Z;
  XAllocNamedColor : Z -> option string -> option XColor;
  XStringToKeysym : option string -> Z;
  XGetModifierMapping : XModifierKeymap;
  XKeysymToKeycode : Z -> Z }.

Definition XK_Num_Lock : Z := 65407.

(* ================================================================== *)
(** ** The run-time configuration (config.h) *)

Inductive Position : Type := BarTop | BarBot | BarOff.

Module Layout.
Record t : Type := mk { symbol : option string; arrange : option layout_fn }.
End Layout.

(** [layout] points into the array of layouts; it is the index of the
    element pointed at. *)
Module Tag.
Record t : Type := mk {
  name : option string;
  selected : bool;
  was_selected : bool;
  layout : nat }.
End Tag.

Module Rule.
Record t : Type := mk {
  prop : option string;
  tags : option string;
  isfloating : bool }.
End Rule.

Module Key.
Record t : Type := mk {
  mod_ : Z;
  keysym : Z;
  func : option uicb_fn;
  arg : option string }.
End Key.

Module DC.
Record colset : Type := mk_colset { ColBorder : Z; ColBG : Z; ColFG : Z }.
Record t : Type := mk {
  font : Z;
  norm : colset;
  sel : colset;
  text_normal : XColor;
  text_selected : XColor }.
End DC.

Record awesome_config : Type := mk_awesome_config {
  screen : Z;
  phys_screen : Z;
  borderpx : Z;
  snap : Z;
  resize_hints : bool;
  opacity_unfocused : Z;
  focus_move_pointer : bool;
  statusbar_default_position : Position;
  statusbar_position : Position;
  nlayouts : Z;
  layouts : list Layout.t;
  mwfact : QArith_base.Q;
  nmaster : Z;
  ncol : Z;
  current_layout : nat;
  nrules : Z;
  rules : list Rule.t;
  ntags : Z;
  tags : list Tag.t;
  modkey : Z;
  numlockmask : Z;
  nkeys : Z;
  keys : list Key.t }.

(* ================================================================== *)
(** ** get_numlockmask *)

(** A counted loop [for(i = 0; i < n; i++)]: the indices it visits. *)
Definition range (n : Z) : list Z := map Z.of_nat (seq 0 (Z.to_nat n)).

(** The loop itself, threading the variables that the body assigns. *)
Fixpoint for_each {S} (idx : list Z) (body : Z -> S -> outcome S) (s : S)
  : outcome S :=
  match idx with
  | [] => ret s
  | i :: rest => s' <- body i s ;; for_each rest body s'
  end.

(** [modmap->modifiermap[k]]. *)
Definition modifiermap_at (modmap : XModifierKeymap) (k : Z) : outcome Z :=
  if k <? 0 then Undef
  else match nth_error (modifiermap modmap) (Z.to_nat k) with
       | Some code => ret code
       | None => Undef
       end.

(** The mask of the modifier that Num Lock is under: the mapping is
    scanned row by row, and a slot that holds the key code of Num Lock
    assigns the bit of its row to [mask]. *)
Definition get_numlockmask (disp : Display) : outcome Z :=
  let modmap := XGetModifierMapping disp in
  for_each (range 8)
    (fun i mask =>
       for_each (range (max_keypermod modmap))
         (fun j mask =>
            code <- modifiermap_at modmap (i * max_keypermod modmap + j) ;;
            if code =? XKeysymToKeycode disp XK_Num_Lock
            then ret (Z.shiftl 1 i)
            else ret mask)
         mask)
    0.

(* ================================================================== *)
(** ** parse_config *)

(** Initialize color from X side. *)
Definition initxcolor (disp : Display) (scr : Z) (colstr : option string)
  : outcome XColor :=
  match XAllocNamedColor disp scr colstr with
  | Some color => ret color
  | None =>
      die ("awesome: error, cannot allocate color '" ++ NONULL colstr
           ++ "'" ++ nl)
  end.

(** [%d]. *)
Definition decimal (i : Z) : string :=
  DecimalString.NilZero.string_of_int (Z.to_int i).

(** Statusbar (lines 327-337). *)
Definition statusbar_position_of (tmp : option string) : Position :=
  match tmp with
  | Some _ =>
      if a_strncmp tmp (Some "off") 6 =? 0 then BarOff
      else if a_strncmp tmp (Some "bottom") 6 =? 0 then BarBot
      else BarTop
  | None => BarTop
  end.

(** Layouts: the loop of lines 343-354, from index [i] on. *)
Fixpoint layouts_loop (i : Z) (secs : list Cfg.layout)
  : outcome (list Layout.t) :=
  match secs with
  | [] => ret []
  | cfgsectmp :: rest =>
      arrange <- name_func_lookup (Some (Cfg.layout_title cfgsectmp))
                   (Some LayoutsList) ;;
      l <- match arrange with
           | None =>
               fprintf_stderr ("awesome: unknown layout #" ++ decimal i
                               ++ " in configuration file" ++ nl) ;;;
               ret (Layout.mk None None)
           | Some _ =>
               ret (Layout.mk
                      (a_strdup (cfg_getstr (Cfg.layout_symbol cfgsectmp)
                                   Schema.layout_symbol))
                      arrange)
           end ;;
      ls <- layouts_loop (i + 1) rest ;;
      ret (l :: ls)
  end.

(** Layouts (lines 341-363): the array, then the check of the default
    layout.  [current_layout] is the array itself, that is its first
    element; it is looked at only when there is one. *)
Definition parse_layouts (cfg_layouts : Cfg.layouts)
  : outcome (list Layout.t) :=
  let nlayouts := cfg_size (Cfg.layout_secs cfg_layouts) in
  layouts <- layouts_loop 0 (Cfg.layout_secs cfg_layouts) ;;
  if nlayouts =? 0
  then eprint ("awesome: fatal: no default layout available" ++ nl)
  else match nth_error layouts 0 with
       | None => Undef
       | Some current =>
           match Layout.arrange current with
           | None => eprint ("awesome: fatal: no default layout available" ++ nl)
           | Some _ => ret layouts
           end
       end.

(** Rules (lines 367-377). *)
Definition parse_rule (cfgsectmp : Cfg.rule) : Rule.t :=
  let prop := a_strdup (cfg_getstr (Cfg.rule_name cfgsectmp) Schema.rule_name) in
  let tags := a_strdup (cfg_getstr (Cfg.rule_tags cfgsectmp) Schema.rule_tags) in
  let tags := if a_strlen tags =? 0 then None else tags in
  Rule.mk prop tags (cfg_getbool (Cfg.rule_float cfgsectmp) Schema.rule_float).

Definition parse_rules (cfg_rules : list Cfg.rule) : list Rule.t :=
  map parse_rule cfg_rules.

(** Tags: the loop of lines 383-390.  Every tag is given the pointer
    [awesomeconf->layouts], the address of the first layout. *)
Definition tags_loop (secs : list Cfg.tag) : list Tag.t :=
  map (fun cfgsectmp =>
         Tag.mk (a_strdup (Some (Cfg.tag_title cfgsectmp))) false false 0%nat)
      secs.

(** Tags (lines 381-397). *)
Definition parse_tags (cfg_tags : list Cfg.tag) : outcome (list Tag.t) :=
  let ntags := cfg_size cfg_tags in
  let tags := tags_loop cfg_tags in
  if ntags =? 0
  then eprint ("awesome: fatal: no tags found in configuration file" ++ nl)
  else match tags with
       | [] => Undef
       | t0 :: rest =>
           ret (Tag.mk (Tag.name t0) true true (Tag.layout t0) :: rest)
       end.

(** Modelled from the spec: [p_new] (util.h) is not among the sources.
    It yields zeroed storage: the mask of a binding is the union of the
    modifiers listed for it and of nothing else. *)
Definition p_new_Key : Key.t := Key.mk 0 0 None None.

(** Keys: the loop of lines 409-410, [keys[i].mod |= ...]. *)
Fixpoint modkey_loop (names : list string) (mod_ : Z) : outcome Z :=
  match names with
  | [] => ret mod_
  | n :: rest =>
      m <- key_mask_lookup (Some n) ;;
      modkey_loop rest (Z.lor mod_ m)
  end.

(** Keys: the body of the loop of lines 406-414. *)
Definition parse_key (disp : Display) (cfgsectmp : Cfg.key) : outcome Key.t :=
  let k := p_new_Key in
  mod_ <- modkey_loop (cfg_strlist (Cfg.key_modkey cfgsectmp) Schema.key_modkey)
            (Key.mod_ k) ;;
  let keysym :=
    XStringToKeysym disp (cfg_getstr (Cfg.key_key cfgsectmp) Schema.key_key) in
  func <- name_func_lookup
            (cfg_getstr (Cfg.key_command cfgsectmp) Schema.key_command)
            (Some KeyfuncList) ;;
  ret (Key.mk mod_ keysym func
         (a_strdup (cfg_getstr (Cfg.key_arg cfgsectmp) Schema.key_arg))).

Fixpoint keys_loop (disp : Display) (secs : list Cfg.key)
  : outcome (list Key.t) :=
  match secs with
  | [] => ret []
  | cfgsectmp :: rest =>
      k <- parse_key disp cfgsectmp ;;
      ks <- keys_loop disp rest ;;
      ret (k :: ks)
  end.

(** Keys: the primary modifier (lines 400-401). *)
Definition parse_modkey (cfg_keys : Cfg.keys) : outcome Z :=
  tmp_key <- key_mask_lookup (cfg_getstr (Cfg.modkey cfg_keys) Schema.modkey) ;;
  ret (if tmp_key =? 0 then Mod4Mask else tmp_key).

(** Parse configuration file and initialize some stuff.  The file has
    been read by [cfg_parse]: [parse_error] tells whether it reported
    [CFG_PARSE_ERROR], [cfg] is the tree it left.  The path of the file
    and the status text (lines 265-277) are left out: nothing that is
    bound below depends on them.  The fields of [awesomeconf] and of
    [drawcontext] are given in the order of their declarations here;
    the effects (diagnostics, exits, lookups) come in the order of the
    source. *)
Definition parse_config (disp : Display) (scr : Z) (parse_error : bool)
  (cfg : Cfg.t) : outcome (DC.t * awesome_config) :=
  let phys_screen := get_phys_screen disp scr in
  (if parse_error
   then fprintf_stderr ("awesome: error parsing configuration file" ++ nl)
   else ret tt) ;;;
  let cfg_general := Cfg.sec_general cfg in
  let cfg_colors := Cfg.sec_colors cfg in
  let cfg_statusbar := Cfg.sec_statusbar cfg in
  let cfg_tags := Cfg.sec_tags cfg in
  let cfg_layouts := Cfg.sec_layouts cfg in
  let cfg_rules := Cfg.sec_rules cfg in
  let cfg_keys := Cfg.sec_keys cfg in
  (* General section *)
  font <- match XftFontOpenName disp phys_screen
                  (cfg_getstr (Cfg.font cfg_general) Schema.font) with
          | Some f => ret f
          | None => eprint ("awesome: cannot init font" ++ nl)
          end ;;
  (* Colors *)
  normal_border <- initxcolor disp phys_screen
    (cfg_getstr (Cfg.normal_border cfg_colors) Schema.normal_border) ;;
  normal_bg <- initxcolor disp phys_screen
    (cfg_getstr (Cfg.normal_bg cfg_colors) Schema.normal_bg) ;;
  focus_border <- initxcolor disp phys_screen
    (cfg_getstr (Cfg.focus_border cfg_colors) Schema.focus_border) ;;
  focus_bg <- initxcolor disp phys_screen
    (cfg_getstr (Cfg.focus_bg cfg_colors) Schema.focus_bg) ;;
  normal_fg <- initxcolor disp phys_screen
    (cfg_getstr (Cfg.normal_fg cfg_colors) Schema.normal_fg) ;;
  focus_fg <- initxcolor disp phys_screen
    (cfg_getstr (Cfg.focus_fg cfg_colors) Schema.focus_fg) ;;
  (* Statusbar *)
  let position :=
    statusbar_position_of
      (cfg_getstr (Cfg.position cfg_statusbar) Schema.position) in
  (* Layouts *)
  layouts <- parse_layouts cfg_layouts ;;
  (* Rules *)
  let rules := parse_rules cfg_rules in
  (* Tags *)
  tags <- parse_tags cfg_tags ;;
  (* Keys *)
  modkey <- parse_modkey cfg_keys ;;
  numlockmask <- get_numlockmask disp ;;
  keys <- keys_loop disp (Cfg.key_secs cfg_keys) ;;
  ret (DC.mk font
         (DC.mk_colset (pixel normal_border) (pixel normal_bg) (pixel normal_fg))
         (DC.mk_colset (pixel focus_border) (pixel focus_bg) (pixel focus_fg))
         normal_fg focus_fg,
       mk_awesome_config scr phys_screen
         (cfg_getint (Cfg.border cfg_general) Schema.border)
         (cfg_getint (Cfg.snap cfg_general) Schema.snap)
         (cfg_getbool (Cfg.resize_hints cfg_general) Schema.resize_hints)
         (cfg_getint (Cfg.opacity_unfocused cfg_general) Schema.opacity_unfocused)
         (cfg_getbool (Cfg.focus_move_pointer cfg_general) Schema.focus_move_pointer)
         position position
         (cfg_size (Cfg.layout_secs cfg_layouts)) layouts
         (cfg_getfloat (Cfg.mwfact cfg_layouts) Schema.mwfact)
         (cfg_getint (Cfg.nmaster cfg_layouts) Schema.nmaster)
         (cfg_getint (Cfg.ncol cfg_layouts) Schema.ncol)
         0%nat
         (cfg_size cfg_rules) rules
         (cfg_size cfg_tags) tags
         modkey numlockmask
         (cfg_size (Cfg.key_secs cfg_keys)) keys).


(* ================================================================== *)
(** ** The registry of the specification *)

(** A registry as the specification words it: a closed table of
    (name, capability) pairs, and [resolve], which yields the capability
    of the first pair whose name is the one asked for, and nothing for a
    null name or a name that no pair has. *)
Definition resolve {C} (table : list (string * C)) (name : option string)
  : option C :=
  match name with
  | None => None
  | Some s => option_map snd (find (fun e => String.eqb s (fst e)) table)
  end.

(** The pairs of a C table: its elements up to the first null name. *)
Fixpoint entries {F} (tbl : list (NameFuncLink.t F))
  : list (string * option F) :=
  match tbl with
  | [] => []
  | e :: rest =>
      match NameFuncLink.name e with
      | None => []
      | Some n => (n, NameFuncLink.func e) :: entries rest
      end
  end.

Fixpoint key_entries (tbl : list KeyMod.t) : list (string * Z) :=
  match tbl with
  | [] => []
  | e :: rest =>
      match KeyMod.name e with
      | None => []
      | Some n => (n, KeyMod.keysym e) :: key_entries rest
      end
  end.

(** A table ends with a sentinel when one of its elements has a null
    name. *)
Definition terminated {F} (tbl : list (NameFuncLink.t F)) : bool :=
  existsb (fun e => match NameFuncLink.name e with
                    | None => true
                    | Some _ => false
                    end) tbl.

Definition key_terminated (tbl : list KeyMod.t) : bool :=
  existsb (fun e => match KeyMod.name e with
                    | None => true
                    | Some _ => false
                    end) tbl.

(** A null capability ([NULL] in the [func] column) is no capability. *)
Definition flatten {C} (o : option (option C)) : option C :=
  match o with
  | Some c => c
  | None => None
  end.

(* ================================================================== *)
(** ** What the statements are about *)

(** The entry that the loop binds for a [layout] section. *)
Definition bound_layout (sec : Cfg.layout) : Layout.t :=
  match flatten (resolve (entries LayoutsList) (Some (Cfg.layout_title sec))) with
  | Some f =>
      Layout.mk (cfg_getstr (Cfg.layout_symbol sec) Schema.layout_symbol)
        (Some f)
  | None => Layout.mk None None
  end.

Definition unknown_layout (i : Z) : string :=
  "awesome: unknown layout #" ++ decimal i ++ " in configuration file" ++ nl.

(** What the loop writes from index [i] on. *)
Fixpoint unknown_layouts (i : Z) (secs : list Cfg.layout) : list string :=
  match secs with
  | [] => []
  | sec :: rest =>
      match Layout.arrange (bound_layout sec) with
      | None => unknown_layout i :: unknown_layouts (i + 1) rest
      | Some _ => unknown_layouts (i + 1) rest
      end
  end.

Definition no_default_layout : string :=
  "awesome: fatal: no default layout available" ++ nl.

Definition no_tags : string :=
  "awesome: fatal: no tags found in configuration file" ++ nl.

(** The mask of a modifier name of the table, and 0 for any other
    name. *)
Definition mask_of (name : string) : Z :=
  match resolve (key_entries KeyModList) (Some name) with
  | Some m => m
  | None => 0
  end.

Definition in_KeyModList (name : string) : bool :=
  match resolve (key_entries KeyModList) (Some name) with
  | Some _ => true
  | None => false
  end.

(** The mapping is as long as [XGetModifierMapping] makes it: eight
    rows of [max_keypermod] key codes. *)
Definition modmap_complete (modmap : XModifierKeymap) : Prop :=
  8 * max_keypermod modmap <= Z.of_nat (List.length (modifiermap modmap)).

(** Row [i] of the mapping holds the key code of Num Lock. *)
Definition row_holds (disp : Display) (i : Z) : bool :=
  let modmap := XGetModifierMapping disp in
  existsb
    (fun j =>
       nth (Z.to_nat (i * max_keypermod modmap + j)) (modifiermap modmap) 0
       =? XKeysymToKeycode disp XK_Num_Lock)
    (range (max_keypermod modmap)).

(** A display that is only asked for its modifier mapping: [modmap] is
    the mapping, [numlock] the key code of Num Lock. *)
Definition keyboard (modmap : XModifierKeymap) (numlock : Z) : Display :=
  mk_Display (fun scr => scr) (fun _ _ => None) (fun _ _ => None)
    (fun _ => 0) modmap
    (fun keysym => if keysym =? XK_Num_Lock then numlock else 0).

(** Num Lock (key code 77) under the modifiers 1 and 3. *)
Definition keyboard_two_rows : Display :=
  keyboard (mk_XModifierKeymap 1 [0; 77; 0; 77; 0; 0; 0; 0]) 77.

(** The tree in which every field that the file leaves out is set to
    the default of its option table.  [arg] has the null default: left
    out, it stays out. *)
Module Defaults.
Definition general (g : Cfg.general) : Cfg.general :=
  Cfg.mk_general
    (Some (cfg_getint (Cfg.border g) Schema.border))
    (Some (cfg_getint (Cfg.snap g) Schema.snap))
    (Some (cfg_getbool (Cfg.resize_hints g) Schema.resize_hints))
    (Some (cfg_getint (Cfg.opacity_unfocused g) Schema.opacity_unfocused))
    (Some (cfg_getbool (Cfg.focus_move_pointer g) Schema.focus_move_pointer))
    (cfg_getstr (Cfg.font g) Schema.font).

Definition colors (c : Cfg.colors) : Cfg.colors :=
  Cfg.mk_colors
    (cfg_getstr (Cfg.normal_border c) Schema.normal_border)
    (cfg_getstr (Cfg.normal_bg c) Schema.normal_bg)
    (cfg_getstr (Cfg.normal_fg c) Schema.normal_fg)
    (cfg_getstr (Cfg.focus_border c) Schema.focus_border)
    (cfg_getstr (Cfg.focus_bg c) Schema.focus_bg)
    (cfg_getstr (Cfg.focus_fg c) Schema.focus_fg).

Definition statusbar (s : Cfg.statusbar) : Cfg.statusbar :=
  Cfg.mk_statusbar (cfg_getstr (Cfg.position s) Schema.position).

Definition tag (t : Cfg.tag) : Cfg.tag :=
  Cfg.mk_tag (Cfg.tag_title t)
    (cfg_getstr (Cfg.tag_layout t) Schema.tag_layout).

Definition layout (l : Cfg.layout) : Cfg.layout :=
  Cfg.mk_layout (Cfg.layout_title l)
    (cfg_getstr (Cfg.layout_symbol l) Schema.layout_symbol).

Definition layouts (l : Cfg.layouts) : Cfg.layouts :=
  Cfg.mk_layouts (map layout (Cfg.layout_secs l))
    (Some (cfg_getfloat (Cfg.mwfact l) Schema.mwfact))
    (Some (cfg_getint (Cfg.nmaster l) Schema.nmaster))
    (Some (cfg_getint (Cfg.ncol l) Schema.ncol)).

Definition rule (r : Cfg.rule) : Cfg.rule :=
  Cfg.mk_rule
    (cfg_getstr (Cfg.rule_name r) Schema.rule_name)
    (cfg_getstr (Cfg.rule_tags r) Schema.rule_tags)
    (Some (cfg_getbool (Cfg.rule_float r) Schema.rule_float)).

Definition key (k : Cfg.key) : Cfg.key :=
  Cfg.mk_key
    (Some (cfg_strlist (Cfg.key_modkey k) Schema.key_modkey))
    (cfg_getstr (Cfg.key_key k) Schema.key_key)
    (cfg_getstr (Cfg.key_command k) Schema.key_command)
    (cfg_getstr (Cfg.key_arg k) Schema.key_arg).

Definition keys (k : Cfg.keys) : Cfg.keys :=
  Cfg.mk_keys (cfg_getstr (Cfg.modkey k) Schema.modkey)
    (map key (Cfg.key_secs k)).

Definition tree (cfg : Cfg.t) : Cfg.t :=
  Cfg.mk (general (Cfg.sec_general cfg)) (colors (Cfg.sec_colors cfg))
    (statusbar (Cfg.sec_statusbar cfg)) (map tag (Cfg.sec_tags cfg))
    (layouts (Cfg.sec_layouts cfg)) (map rule (Cfg.sec_rules cfg))
    (keys (Cfg.sec_keys cfg)).
End Defaults.

(** What the fields that the file leaves out are bound to, section by
    section, in a run of [parse_config] that returns [dc] and [conf]. *)
Section AbsentFields.
Variables (disp : Display) (cfg : Cfg.t) (dc : DC.t) (conf : awesome_config).

Definition general_absent : Prop :=
  let g := Cfg.sec_general cfg in
  (Cfg.border g = None -> borderpx conf = 1)
  /\ (Cfg.snap g = None -> snap conf = 8)
  /\ (Cfg.resize_hints g = None -> resize_hints conf = false)
  /\ (Cfg.opacity_unfocused g = None -> opacity_unfocused conf = 100)
  /\ (Cfg.focus_move_pointer g = None -> focus_move_pointer conf = false)
  /\ (Cfg.font g = None ->
      XftFontOpenName disp (phys_screen conf) (Some "mono-12")
      = Some (DC.font dc)).

(** A colour is bound through the allocation of its name. *)
Definition allocated (name : string) (c : XColor) : Prop :=
  XAllocNamedColor disp (phys_screen conf) (Some name) = Some c.

Definition colors_absent : Prop :=
  let c := Cfg.sec_colors cfg in
  (Cfg.normal_border c = None ->
   exists x, allocated "#111111" x /\ DC.ColBorder (DC.norm dc) = pixel x)
  /\ (Cfg.normal_bg c = None ->
      exists x, allocated "#111111" x /\ DC.ColBG (DC.norm dc) = pixel x)
  /\ (Cfg.normal_fg c = None ->
      allocated "#eeeeee" (DC.text_normal dc)
      /\ DC.ColFG (DC.norm dc) = pixel (DC.text_normal dc))
  /\ (Cfg.focus_border c = None ->
      exists x, allocated "#6666ff" x /\ DC.ColBorder (DC.sel dc) = pixel x)
  /\ (Cfg.focus_bg c = None ->
      exists x, allocated "#6666ff" x /\ DC.ColBG (DC.sel dc) = pixel x)
  /\ (Cfg.focus_fg c = None ->
      allocated "#ffffff" (DC.text_selected dc)
      /\ DC.ColFG (DC.sel dc) = pixel (DC.text_selected dc)).

Definition statusbar_absent : Prop :=
  Cfg.position (Cfg.sec_statusbar cfg) = None ->
  statusbar_default_position conf = BarTop
  /\ statusbar_position conf = BarTop.

(** The symbol of a layout that is left out is ["???"] when the title
    of the layout is resolved, and null when it is not. *)
Definition layouts_absent : Prop :=
  let l := Cfg.sec_layouts cfg in
  (Cfg.mwfact l = None -> mwfact conf = QArith_base.Qmake 1 2)
  /\ (Cfg.nmaster l = None -> nmaster conf = 1)
  /\ (Cfg.ncol l = None -> ncol conf = 1)
  /\ (forall (i : nat) (sec : Cfg.layout),
        nth_error (Cfg.layout_secs l) i = Some sec ->
        Cfg.layout_symbol sec = None ->
        exists b : Layout.t,
          nth_error (layouts conf) i = Some b
          /\ Layout.symbol b
             = match Layout.arrange b with
               | Some _ => Some "???"
               | None => None
               end).

(** The tags of a rule that are left out are null, as are tags that
    are set to the empty string. *)
Definition rules_absent : Prop :=
  forall (i : nat) (sec : Cfg.rule),
    nth_error (Cfg.sec_rules cfg) i = Some sec ->
    exists r : Rule.t,
      nth_error (rules conf) i = Some r
      /\ (Cfg.rule_name sec = None -> Rule.prop r = Some "")
      /\ (Cfg.rule_tags sec = None -> Rule.tags r = None)
      /\ (Cfg.rule_float sec = None -> Rule.isfloating r = false).

Definition keys_absent : Prop :=
  let k := Cfg.sec_keys cfg in
  (Cfg.modkey k = None -> modkey conf = Mod4Mask)
  /\ (forall (i : nat) (sec : Cfg.key),
        nth_error (Cfg.key_secs k) i = Some sec ->
        exists b : Key.t,
          nth_error (keys conf) i = Some b
          /\ (Cfg.key_modkey sec = None -> Key.mod_ b = Mod4Mask)
          /\ (Cfg.key_key sec = None ->
              Key.keysym b = XStringToKeysym disp (Some "None"))
          /\ (Cfg.key_command sec = None -> Key.func b = None)
          /\ (Cfg.key_arg sec = None -> Key.arg b = None)).
End AbsentFields.

(** A display that knows the default font and the default colours,
    and nothing else. *)
Definition display_defaults_only : Display :=
  mk_Display (fun scr => scr)
    (fun _ name =>
       if a_strcmp name (Some "mono-12") =? 0 then Some 1 else None)
    (fun _ name =>
       if a_strcmp name (Some "#111111") =? 0
       then Some (mk_XColor 1118481 4369 4369 4369)
       else if a_strcmp name (Some "#eeeeee") =? 0
       then Some (mk_XColor 15658734 61166 61166 61166)
       else if a_strcmp name (Some "#6666ff") =? 0
       then Some (mk_XColor 6710015 26214 26214 65535)
       else if a_strcmp name (Some "#ffffff") =? 0
       then Some (mk_XColor 16777215 65535 65535 65535)
       else None)
    (fun name => if a_strcmp name (Some "None") =? 0 then 0 else 1)
    (mk_XModifierKeymap 1 [0; 0; 0; 0; 77; 0; 0; 0])
    (fun keysym => if keysym =? XK_Num_Lock then 77 else 0).

(** A file that sets no field: two layouts (the second of a name that
    is not a layout), one rule, one tag and one key. *)
Definition cfg_nothing_set : Cfg.t :=
  Cfg.mk
    (Cfg.mk_general None None None None None None)
    (Cfg.mk_colors None None None None None None)
    (Cfg.mk_statusbar None)
    [Cfg.mk_tag "one" None]
    (Cfg.mk_layouts [Cfg.mk_layout "tile" None; Cfg.mk_layout "bogus" None]
       None None None)
    [Cfg.mk_rule None None None]
    (Cfg.mk_keys None [Cfg.mk_key None None None None]).

(** ** Conditions on the input of [parse_config] *)

(** The names that [parse_config] asks the display to allocate, in the
    order of its calls to [initxcolor]. *)
Definition color_names (c : Cfg.colors) : list (option string) :=
  [ cfg_getstr (Cfg.normal_border c) Schema.normal_border;
    cfg_getstr (Cfg.normal_bg c) Schema.normal_bg;
    cfg_getstr (Cfg.focus_border c) Schema.focus_border;
    cfg_getstr (Cfg.focus_bg c) Schema.focus_bg;
    cfg_getstr (Cfg.normal_fg c) Schema.normal_fg;
    cfg_getstr (Cfg.focus_fg c) Schema.focus_fg ].

Definition is_some {A} (o : option A) : bool :=
  match o with
  | Some _ => true
  | None => false
  end.

(** The font of the file, or else the default one, can be opened. *)
Definition font_opens (disp : Display) (scr : Z) (cfg : Cfg.t) : bool :=
  is_some (XftFontOpenName disp (get_phys_screen disp scr)
             (cfg_getstr (Cfg.font (Cfg.sec_general cfg)) Schema.font)).

(** The six colours can be allocated. *)
Definition colors_allocate (disp : Display) (scr : Z) (cfg : Cfg.t) : bool :=
  forallb (fun name =>
             is_some (XAllocNamedColor disp (get_phys_screen disp scr) name))
    (color_names (Cfg.sec_colors cfg)).

(** There is a first [layout] section and its title is the name of a
    layout. *)
Definition default_layout_usable (cfg : Cfg.t) : bool :=
  match Cfg.layout_secs (Cfg.sec_layouts cfg) with
  | [] => false
  | sec :: _ => is_some (Layout.arrange (bound_layout sec))
  end.

(** There is a [tag] section. *)
Definition has_tags (cfg : Cfg.t) : bool :=
  match Cfg.sec_tags cfg with
  | [] => false
  | _ :: _ => true
  end.

(** The modifier names of the [keys] section, those of [keys.modkey]
    and of every [key], are names of [KeyModList]. *)
Definition modkey_known (cfg : Cfg.t) : bool :=
  match cfg_getstr (Cfg.modkey (Cfg.sec_keys cfg)) Schema.modkey with
  | Some name => in_KeyModList name
  | None => true
  end.

Definition key_modifiers_known (cfg : Cfg.t) : bool :=
  forallb (fun sec =>
             forallb in_KeyModList
               (cfg_strlist (Cfg.key_modkey sec) Schema.key_modkey))
    (Cfg.key_secs (Cfg.sec_keys cfg)).

(** The diagnostic of a file that [cfg_parse] rejects. *)
Definition parse_error_log (parse_error : bool) : list string :=
  if parse_error
  then ["awesome: error parsing configuration file" ++ nl]
  else [].

Definition is_undef {A} (m : outcome A) : bool :=
  match m with
  | Undef => true
  | _ => false
  end.

(** A call that neither exits nor writes: it returns with an empty
    [stderr], or its behaviour is undefined. *)
Definition quiet {A} (m : outcome A) : Prop :=
  match m with
  | Ret _ l => l = []
  | Exit _ => False
  | Undef => True
  end.

(** The diagnostics of the exits. *)
Definition cannot_init_font : string := "awesome: cannot init font" ++ nl.

Definition cannot_allocate (colstr : option string) : string :=
  "awesome: error, cannot allocate color '" ++ NONULL colstr ++ "'" ++ nl.

(** The title of a [layout] section is not the name of a layout. *)
Definition unknown_title (sec : Cfg.layout) : bool :=
  negb (is_some (Layout.arrange (bound_layout sec))).

(* ================================================================== *)
(** * Properties *)

(** ** Strings *)

Lemma N_of_ascii_compare_eq (c d : ascii) :
  (N_of_ascii c ?= N_of_ascii d)%N = Eq <-> c = d.
Proof.
  rewrite N.compare_eq_iff. split.
  - intros H. rewrite <- (ascii_N_embedding c), <- (ascii_N_embedding d).
    now rewrite H.
  - now intros ->.
Qed.

Lemma strcmp_eq (a b : string) : strcmp a b = 0 <-> a = b.
Proof.
  revert b. induction a as [|c a IH]; intros [|d b]; simpl;
    try (split; [lia | discriminate]); try tauto.
  destruct (N_of_ascii c ?= N_of_ascii d)%N eqn:E.
  - apply N_of_ascii_compare_eq in E. subst d. rewrite IH.
    split; [now intros -> | now injection 1].
  - split; [lia | ]. injection 1 as -> _.
    rewrite N.compare_refl in E. discriminate.
  - split; [lia | ]. injection 1 as -> _.
    rewrite N.compare_refl in E. discriminate.
Qed.

Lemma a_strcmp_eqb (a b : string) :
  (a_strcmp (Some a) (Some b) =? 0) = String.eqb a b.
Proof.
  unfold a_strcmp. simpl.
  destruct (String.eqb_spec a b) as [->|N].
  - apply Z.eqb_eq. now apply strcmp_eq.
  - apply Z.eqb_neq. now rewrite strcmp_eq.
Qed.

(** With room for the terminating NUL of [b], [strncmp] is [strcmp]. *)
Lemma strncmp_exact (b a : string) (n : nat) :
  (String.length b < n)%nat -> (strncmp a b n = 0 <-> a = b).
Proof.
  revert a n. induction b as [|d b IH]; intros [|c a] [|n] Hn; simpl in *;
    try lia; try tauto; try (split; [lia | discriminate]).
  destruct (N_of_ascii c ?= N_of_ascii d)%N eqn:E.
  - apply N_of_ascii_compare_eq in E. subst d. rewrite IH by lia.
    split; [now intros -> | now injection 1].
  - split; [lia | ]. injection 1 as -> _.
    rewrite N.compare_refl in E. discriminate.
  - split; [lia | ]. injection 1 as -> _.
    rewrite N.compare_refl in E. discriminate.
Qed.

(** With a bound that is the length of [b], [strncmp] only tells
    whether [a] starts with [b]. *)
Lemma strncmp_prefix (b a : string) :
  strncmp a b (String.length b) = 0 <-> String.prefix b a = true.
Proof.
  revert a. induction b as [|d b IH]; intros [|c a]; simpl;
    try tauto; try (split; [lia | discriminate]).
  destruct (N_of_ascii c ?= N_of_ascii d)%N eqn:E.
  - apply N_of_ascii_compare_eq in E. subst d. rewrite IH.
    destruct (ascii_dec c c); tauto.
  - split; [lia | ]. destruct (ascii_dec d c) as [->|]; [|discriminate].
    rewrite N.compare_refl in E. discriminate.
  - split; [lia | ]. destruct (ascii_dec d c) as [->|]; [|discriminate].
    rewrite N.compare_refl in E. discriminate.
Qed.

(** ** The lookups *)

Section Scans.
Context {F : Type}.

(** On a table that ends with a sentinel, the scan of
    [name_func_lookup] is [resolve] on the pairs of the table: it ends,
    it writes nothing and it finds the first pair of that name. *)
Lemma name_func_scan_resolve (tbl : list (NameFuncLink.t F)) (s : string) :
  terminated tbl = true ->
  name_func_scan tbl (Some s)
  = Ret (flatten (resolve (entries tbl) (Some s))) [].
Proof.
  induction tbl as [|e rest IH]; simpl; [discriminate|].
  destruct (NameFuncLink.name e) as [n|]; simpl; [|reflexivity].
  intros T. rewrite a_strcmp_eqb.
  destruct (String.eqb s n); [reflexivity|]. now apply IH.
Qed.

(** Without a sentinel, a name that no pair has takes the scan out
    of the table. *)
Lemma name_func_scan_unterminated (tbl : list (NameFuncLink.t F)) (s : string) :
  terminated tbl = false ->
  resolve (entries tbl) (Some s) = None ->
  name_func_scan tbl (Some s) = Undef.
Proof.
  induction tbl as [|e rest IH]; simpl; [reflexivity|].
  destruct (NameFuncLink.name e) as [n|]; simpl; [|discriminate].
  intros T. rewrite a_strcmp_eqb.
  destruct (String.eqb s n); [discriminate|]. now apply IH.
Qed.
End Scans.

(** The scan of [key_mask_lookup], on any table. *)
Lemma key_mask_scan_resolve (tbl : list KeyMod.t) (s : string) :
  key_mask_scan tbl (Some s)
  = match resolve (key_entries tbl) (Some s) with
    | Some m => Ret m []
    | None => if key_terminated tbl then Ret 0 [] else Undef
    end.
Proof.
  induction tbl as [|e rest IH]; simpl; [reflexivity|].
  destruct (KeyMod.name e) as [n|]; simpl; [|reflexivity].
  rewrite a_strcmp_eqb. destruct (String.eqb s n); [reflexivity|].
  exact IH.
Qed.

(** [KeyModList] has no sentinel: a name of the table yields its mask,
    any other name is looked for after the ninth element. *)
Lemma key_mask_lookup_resolve (s : string) :
  key_mask_lookup (Some s)
  = match resolve (key_entries KeyModList) (Some s) with
    | Some m => Ret m []
    | None => Undef
    end.
Proof.
  unfold key_mask_lookup. rewrite key_mask_scan_resolve.
  destruct (resolve (key_entries KeyModList) (Some s)); reflexivity.
Qed.

Lemma layout_lookup_resolve (s : string) :
  name_func_lookup (Some s) (Some LayoutsList)
  = Ret (flatten (resolve (entries LayoutsList) (Some s))) [].
Proof. now apply name_func_scan_resolve. Qed.

Lemma keyfunc_lookup_resolve (s : string) :
  name_func_lookup (Some s) (Some KeyfuncList)
  = Ret (flatten (resolve (entries KeyfuncList) (Some s))) [].
Proof. now apply name_func_scan_resolve. Qed.

(** A null name is resolved to nothing by both lookups, without a look
    at the table. *)
Lemma lookup_null {F} (list : option (list (NameFuncLink.t F))) :
  name_func_lookup None list = Ret None [] /\ key_mask_lookup None = Ret 0 [].
Proof. split; reflexivity. Qed.

(** The empty name is the name of no pair. *)
Lemma lookup_empty :
  name_func_lookup (Some "") (Some LayoutsList) = Ret None []
  /\ name_func_lookup (Some "") (Some KeyfuncList) = Ret None [].
Proof. split; reflexivity. Qed.

(** C6 (the code at the failing input): a name that the modifier table
    does not hold, the empty name among them, is not resolved to
    nothing: the scan of [key_mask_lookup] goes on after the last
    element of [KeyModList], whereas the same names are resolved to
    nothing by [name_func_lookup] on the two tables that end with a
    sentinel. *)
Theorem key_mask_lookup_reads_past_table :
  key_terminated KeyModList = false
  /\ resolve (key_entries KeyModList) (Some "bogus") = None
  /\ key_mask_lookup (Some "bogus") = Undef
  /\ key_mask_lookup (Some "") = Undef
  /\ name_func_lookup (Some "bogus") (Some LayoutsList) = Ret None []
  /\ name_func_lookup (Some "bogus") (Some KeyfuncList) = Ret None [].
Proof. repeat split. Qed.

(** ** Statusbar *)

(** What the two comparisons of lines 330-335 decide: ["off"] is
    compared as a whole (the bound leaves room for its NUL), ["bottom"]
    only as a prefix (the bound is its length). *)
Lemma statusbar_position_of_cases (s : string) :
  statusbar_position_of (Some s)
  = if String.eqb s "off" then BarOff
    else if String.prefix "bottom" s then BarBot
    else BarTop.
Proof.
  unfold statusbar_position_of, a_strncmp. cbn [NONULL].
  destruct (String.eqb_spec s "off") as [->|N]; [reflexivity|].
  destruct (strncmp s "off" 6 =? 0) eqn:E.
  - apply Z.eqb_eq in E. apply strncmp_exact in E; [contradiction|simpl; lia].
  - destruct (String.prefix "bottom" s) eqn:P.
    + apply (strncmp_prefix "bottom" s) in P. cbn [String.length] in P.
      now rewrite P.
    + destruct (strncmp s "bottom" 6 =? 0) eqn:E'; [|reflexivity].
      apply Z.eqb_eq in E'. apply (strncmp_prefix "bottom" s) in E'.
      congruence.
Qed.

(** C4 (the code at the failing input): a position that only starts
    with ["bottom"] is taken for ["bottom"]; the values that the spec
    names are classified as it says. *)
Theorem statusbar_position_bottom_prefix :
  statusbar_position_of (Some "bottomless") = BarBot
  /\ "bottomless" <> "bottom"
  /\ statusbar_position_of (Some "bottom") = BarBot
  /\ statusbar_position_of (Some "off") = BarOff
  /\ statusbar_position_of (Some "top") = BarTop
  /\ statusbar_position_of (Some "weird") = BarTop.
Proof. repeat split. discriminate. Qed.

(** ** Keys: the primary modifier *)

Lemma parse_modkey_resolve (cfg_keys : Cfg.keys) (name : string) (m : Z) :
  cfg_getstr (Cfg.modkey cfg_keys) Schema.modkey = Some name ->
  resolve (key_entries KeyModList) (Some name) = Some m ->
  parse_modkey cfg_keys = Ret (if m =? 0 then Mod4Mask else m) [].
Proof.
  intros Hn Hr. unfold parse_modkey. rewrite Hn, key_mask_lookup_resolve, Hr.
  reflexivity.
Qed.

(** C7 (amended): when [keys.modkey] names a pair of the modifier
    table, the primary modifier is the mask of that pair if the mask is
    not zero, and [Mod4Mask] if it is zero; the binding goes on and
    writes nothing. *)
Theorem modkey_of_registry_name (cfg_keys : Cfg.keys) (name : string) (m : Z) :
  cfg_getstr (Cfg.modkey cfg_keys) Schema.modkey = Some name ->
  resolve (key_entries KeyModList) (Some name) = Some m ->
  parse_modkey cfg_keys = Ret (if m =? 0 then Mod4Mask else m) []
  /\ (m <> 0 -> parse_modkey cfg_keys = Ret m []).
Proof.
  intros Hn Hr. split; [now apply parse_modkey_resolve with name|].
  intros Hm. rewrite (parse_modkey_resolve _ Hn Hr).
  apply Z.eqb_neq in Hm. now rewrite Hm.
Qed.

Lemma modkey_of_registry_name_witness :
  cfg_getstr (Cfg.modkey (Cfg.mk_keys (Some "Mod1") [])) Schema.modkey
  = Some "Mod1"
  /\ resolve (key_entries KeyModList) (Some "Mod1") = Some Mod1Mask
  /\ parse_modkey (Cfg.mk_keys (Some "Mod1") []) = Ret Mod1Mask [].
Proof.
  split; [reflexivity|]. split; [reflexivity|].
  exact (proj1 (@modkey_of_registry_name (Cfg.mk_keys (Some "Mod1") [])
                  "Mod1" Mod1Mask eq_refl eq_refl)).
Defined.

(** C7 (as stated, refuted): ["None"] is resolved, to the mask 0, and
    yet the primary modifier is not that mask but [Mod4Mask]. *)
Lemma modkey_None_is_not_its_mask :
  resolve (key_entries KeyModList) (Some "None") = Some 0
  /\ key_mask_lookup (Some "None") = Ret 0 []
  /\ parse_modkey (Cfg.mk_keys (Some "None") []) = Ret Mod4Mask []
  /\ Mod4Mask <> 0.
Proof. repeat split. discriminate. Qed.

(** C9: a [keys.modkey] that the lookup resolves to the mask 0, as it
    does ["None"], gives the primary modifier [Mod4Mask], the bit 6:
    the test of line 401 cannot tell a mask that is zero from a name
    that was not found. *)
Theorem modkey_zero_mask_falls_back (cfg_keys : Cfg.keys) (log : list string) :
  key_mask_lookup (cfg_getstr (Cfg.modkey cfg_keys) Schema.modkey) = Ret 0 log ->
  parse_modkey cfg_keys = Ret Mod4Mask log /\ Mod4Mask = Z.shiftl 1 6.
Proof.
  intros H. unfold parse_modkey. rewrite H. simpl. rewrite app_nil_r.
  split; reflexivity.
Qed.

Lemma modkey_zero_mask_falls_back_witness :
  key_mask_lookup (cfg_getstr (Cfg.modkey (Cfg.mk_keys (Some "None") []))
                     Schema.modkey) = Ret 0 []
  /\ parse_modkey (Cfg.mk_keys (Some "None") []) = Ret Mod4Mask [].
Proof.
  split; [reflexivity|].
  exact (proj1 (@modkey_zero_mask_falls_back (Cfg.mk_keys (Some "None") []) []
                  eq_refl)).
Defined.

(** ** Sequencing *)

Lemma bind_ret_l {A B} (a : A) (f : A -> outcome B) :
  bind (ret a) f = f a.
Proof. unfold bind, ret. destruct (f a); reflexivity. Qed.

Lemma bind_Ret_inv {A B} (m : outcome A) (f : A -> outcome B) b log :
  bind m f = Ret b log ->
  exists a l1 l2, m = Ret a l1 /\ f a = Ret b l2 /\ log = (l1 ++ l2)%list.
Proof.
  unfold bind. destruct m as [a l1| |]; try discriminate.
  destruct (f a) as [b' l2| |] eqn:E; try discriminate.
  injection 1 as <- <-. now exists a, l1, l2.
Qed.

(** ** Layouts *)

Lemma layouts_loop_eq (secs : list Cfg.layout) (i : Z) :
  layouts_loop i secs = Ret (map bound_layout secs) (unknown_layouts i secs).
Proof.
  revert i. induction secs as [|sec rest IH]; intros i; [reflexivity|].
  cbn [layouts_loop map unknown_layouts]. rewrite layout_lookup_resolve.
  assert (Hb : bound_layout sec
               = match flatten (resolve (entries LayoutsList)
                                  (Some (Cfg.layout_title sec))) with
                 | Some f =>
                     Layout.mk (cfg_getstr (Cfg.layout_symbol sec)
                                  Schema.layout_symbol) (Some f)
                 | None => Layout.mk None None
                 end) by reflexivity.
  destruct (flatten (resolve (entries LayoutsList)
                       (Some (Cfg.layout_title sec)))) as [f|];
    rewrite Hb; unfold bind, fprintf_stderr, ret; rewrite IH;
    cbn [app Layout.arrange a_strdup]; rewrite ?app_nil_r; reflexivity.
Qed.

Lemma unknown_layouts_In (secs : list Cfg.layout) (i : Z) (k : nat) sec :
  nth_error secs k = Some sec ->
  Layout.arrange (bound_layout sec) = None ->
  In (unknown_layout (i + Z.of_nat k)) (unknown_layouts i secs).
Proof.
  revert i k. induction secs as [|s rest IH]; intros i [|k]; simpl;
    try discriminate.
  - injection 1 as ->. intros ->. left. f_equal. lia.
  - intros H N. pose proof (IH (i + 1) k H N) as I.
    replace (i + 1 + Z.of_nat k) with (i + Z.pos (Pos.of_succ_nat k)) in I by lia.
    destruct (Layout.arrange (bound_layout s)); [exact I | right; exact I].
Qed.

(** C1: the loop binds one entry for each [layout] section, in the
    order of the sections.  A section whose title the layout table
    resolves is bound to that function and to its symbol; one whose
    title is not resolved is bound, at the same index, with a null
    [arrange] and a null [symbol], and a diagnostic that names its
    index is written.  The loop always runs to its end.  After it,
    [parse_config] exits (with the fatal diagnostic) exactly when there
    is no entry or the first entry has a null [arrange], whatever the
    other entries are; otherwise it goes on with the entries bound. *)
Theorem layouts_binding (cfg_layouts : Cfg.layouts) :
  exists (layouts : list Layout.t) (log : list string),
    layouts_loop 0 (Cfg.layout_secs cfg_layouts) = Ret layouts log
    /\ List.length layouts = List.length (Cfg.layout_secs cfg_layouts)
    /\ (forall (i : nat) (sec : Cfg.layout),
          nth_error (Cfg.layout_secs cfg_layouts) i = Some sec ->
          exists arrange,
            name_func_lookup (Some (Cfg.layout_title sec)) (Some LayoutsList)
            = Ret arrange []
            /\ match arrange with
               | Some f =>
                   nth_error layouts i
                   = Some (Layout.mk
                             (cfg_getstr (Cfg.layout_symbol sec)
                                Schema.layout_symbol)
                             (Some f))
               | None =>
                   nth_error layouts i = Some (Layout.mk None None)
                   /\ In (unknown_layout (Z.of_nat i)) log
               end)
    /\ (parse_layouts cfg_layouts = Ret layouts log
        \/ parse_layouts cfg_layouts = Exit (log ++ [no_default_layout]))
    /\ (parse_layouts cfg_layouts = Exit (log ++ [no_default_layout])
        <-> layouts = []
            \/ option_map Layout.arrange (nth_error layouts 0) = Some None).
Proof.
  destruct cfg_layouts as [secs mw nm nc]. cbn [Cfg.layout_secs].
  exists (map bound_layout secs), (unknown_layouts 0 secs).
  split; [apply layouts_loop_eq|].
  split; [apply length_map|].
  split.
  - intros i sec Hi. rewrite layout_lookup_resolve.
    eexists; split; [reflexivity|].
    pose proof (map_nth_error bound_layout _ _ Hi) as Hb.
    pose proof (unknown_layouts_In secs 0 i Hi) as Hlog.
    unfold bound_layout in Hb at 2. unfold bound_layout in Hlog.
    destruct (flatten (resolve (entries LayoutsList)
                         (Some (Cfg.layout_title sec)))) as [f|].
    + exact Hb.
    + split; [exact Hb | now apply Hlog].
  - unfold parse_layouts. cbn [Cfg.layout_secs]. rewrite layouts_loop_eq.
    destruct secs as [|s rest].
    + cbn. split; [now right|]. split; [now left | reflexivity].
    + cbn [cfg_size List.length map nth_error bind option_map].
      replace (Z.of_nat (S (List.length rest)) =? 0) with false
        by (symmetry; apply Z.eqb_neq; lia).
      destruct (Layout.arrange (bound_layout s)) as [f|]; cbn.
      * rewrite app_nil_r. split; [now left|].
        split; [discriminate | intros [H|H]; discriminate].
      * split; [now right|]. split; [now right | reflexivity].
Qed.

(** The two layouts of the specification: ["tile"] then ["bogus"] is
    bound, ["bogus"] alone is fatal. *)
Example layouts_tile_bogus :
  parse_layouts
    (Cfg.mk_layouts [Cfg.mk_layout "tile" None; Cfg.mk_layout "bogus" None]
       None None None)
  = Ret [Layout.mk (Some "???") (Some layout_tile); Layout.mk None None]
      [unknown_layout 1].
Proof. reflexivity. Qed.

Example layouts_bogus_alone :
  parse_layouts (Cfg.mk_layouts [Cfg.mk_layout "bogus" None] None None None)
  = Exit [unknown_layout 0; no_default_layout].
Proof. reflexivity. Qed.

(** ** Tags *)

Lemma tags_loop_nth (secs : list Cfg.tag) (i : nat) (sec : Cfg.tag) :
  nth_error secs i = Some sec ->
  nth_error (tags_loop secs) i
  = Some (Tag.mk (Some (Cfg.tag_title sec)) false false 0%nat).
Proof. intros H. unfold tags_loop. now rewrite (map_nth_error _ _ _ H). Qed.

(** C2: with no [tag] section [parse_config] exits; with at least one,
    there is one tag for each section, named by the title of its
    section; the first tag is selected and was selected, no other tag
    is; and the [layout] of every tag is the address of the first
    layout, [layouts[0]]. *)
Theorem tags_binding (cfg_tags : list Cfg.tag) :
  (cfg_tags = [] -> parse_tags cfg_tags = Exit [no_tags])
  /\ (cfg_tags <> [] ->
      exists tags : list Tag.t,
        parse_tags cfg_tags = Ret tags []
        /\ List.length tags = List.length cfg_tags
        /\ forall (i : nat) (sec : Cfg.tag),
             nth_error cfg_tags i = Some sec ->
             exists t : Tag.t,
               nth_error tags i = Some t
               /\ Tag.name t = Some (Cfg.tag_title sec)
               /\ Tag.selected t = (i =? 0)%nat
               /\ Tag.was_selected t = (i =? 0)%nat
               /\ Tag.layout t = 0%nat).
Proof.
  split; [now intros ->|].
  destruct cfg_tags as [|s rest]; [congruence|]. intros _.
  unfold parse_tags. cbn [cfg_size List.length].
  replace (Z.of_nat (S (List.length rest)) =? 0) with false
    by (symmetry; apply Z.eqb_neq; lia).
  cbn [tags_loop map Tag.name Tag.layout]. eexists. split; [reflexivity|].
  split; [cbn; now rewrite length_map|].
  intros [|i] sec H; cbn in H.
  - injection H as <-. eexists. split; [reflexivity|]. now cbn.
  - cbn [nth_error]. fold (tags_loop rest). rewrite (tags_loop_nth _ _ H).
    eexists. split; [reflexivity|]. now cbn.
Qed.

Example tags_three :
  parse_tags [Cfg.mk_tag "1" None; Cfg.mk_tag "2" (Some "max");
              Cfg.mk_tag "3" None]
  = Ret [Tag.mk (Some "1") true true 0; Tag.mk (Some "2") false false 0;
         Tag.mk (Some "3") false false 0] [].
Proof. reflexivity. Qed.

(** ** Keys: the modifier mask of a binding *)

(** On names that are all in the table, the loop ORs their masks into
    the mask it starts from. *)
Lemma modkey_loop_resolved (names : list string) (mod0 : Z) :
  forallb in_KeyModList names = true ->
  modkey_loop names mod0 = Ret (fold_left Z.lor (map mask_of names) mod0) [].
Proof.
  revert mod0. induction names as [|n rest IH]; intros mod0; [reflexivity|].
  cbn [forallb map fold_left modkey_loop]. intros H.
  apply andb_true_iff in H as [Hn Hrest].
  rewrite key_mask_lookup_resolve. unfold in_KeyModList in Hn.
  assert (Hm : mask_of n
               = match resolve (key_entries KeyModList) (Some n) with
                 | Some m => m
                 | None => 0
                 end) by reflexivity.
  destruct (resolve (key_entries KeyModList) (Some n)) as [m|];
    [|discriminate].
  rewrite Hm. unfold bind. rewrite IH by assumption. reflexivity.
Qed.

(** One name that the table does not hold is enough for the loop to
    leave the table. *)
Lemma modkey_loop_unresolved (names : list string) (mod0 : Z) :
  forallb in_KeyModList names = false ->
  modkey_loop names mod0 = Undef.
Proof.
  revert mod0. induction names as [|n rest IH]; intros mod0; [discriminate|].
  cbn [forallb modkey_loop]. intros H.
  rewrite key_mask_lookup_resolve. unfold in_KeyModList in H at 1.
  destruct (resolve (key_entries KeyModList) (Some n)) as [m|];
    [|reflexivity].
  unfold bind. rewrite IH by exact H. reflexivity.
Qed.

(** The mask of a binding whose modifiers are all in the table. *)
Lemma parse_key_mod (disp : Display) (sec : Cfg.key) :
  forallb in_KeyModList (cfg_strlist (Cfg.key_modkey sec) Schema.key_modkey)
  = true ->
  exists k : Key.t,
    parse_key disp sec = Ret k []
    /\ Key.mod_ k
       = fold_left Z.lor
           (map mask_of (cfg_strlist (Cfg.key_modkey sec) Schema.key_modkey)) 0.
Proof.
  intros H. unfold parse_key. rewrite (modkey_loop_resolved _ _ H).
  destruct (cfg_getstr (Cfg.key_command sec) Schema.key_command) as [c|].
  - rewrite keyfunc_lookup_resolve. cbn. eexists; split; reflexivity.
  - cbn. eexists; split; reflexivity.
Qed.

(** C3 (the code at the failing input): with a modifier that the table
    does not hold, here ["Foo"] after ["Shift"], the mask is not the OR
    of the masks of the others: [key_mask_lookup] reads after the last
    element of [KeyModList], and neither the binding nor
    [parse_config] has a defined result.  With ["None"] in place of
    ["Foo"] the mask is that of ["Shift"]. *)
Theorem modifier_mask_unknown_name (disp : Display) :
  in_KeyModList "Foo" = false
  /\ modkey_loop ["Shift"; "Foo"] 0 = Undef
  /\ parse_key disp (Cfg.mk_key (Some ["Shift"; "Foo"]) None None None) = Undef
  /\ keys_loop disp [Cfg.mk_key (Some ["Shift"; "Foo"]) None None None] = Undef
  /\ modkey_loop ["Shift"; "None"] 0 = Ret ShiftMask [].
Proof. repeat split. Qed.

(** ** get_numlockmask *)

Lemma for_each_pure {S} (idx : list Z) (body : Z -> S -> outcome S)
  (f : Z -> S -> S) (s : S) :
  (forall i s', In i idx -> body i s' = Ret (f i s') []) ->
  for_each idx body s = Ret (fold_left (fun s' i => f i s') idx s) [].
Proof.
  revert s. induction idx as [|i rest IH]; intros s H; [reflexivity|].
  cbn [for_each fold_left]. rewrite (H i s (or_introl eq_refl)).
  unfold bind. rewrite IH; [reflexivity|].
  intros j s' Hj. apply H. now right.
Qed.

Lemma fold_left_set {S} (p : Z -> bool) (c : S) (idx : list Z) (s : S) :
  fold_left (fun s' j => if p j then c else s') idx s
  = if existsb p idx then c else s.
Proof.
  revert s. induction idx as [|j rest IH]; intros s; [reflexivity|].
  cbn [fold_left existsb]. rewrite IH.
  destruct (p j); cbn; [|reflexivity]. now destruct (existsb p rest).
Qed.

Lemma range_bounds (n i : Z) : In i (range n) -> 0 <= i < n.
Proof.
  unfold range. rewrite in_map_iff. intros [k [<- Hk]].
  apply in_seq in Hk. lia.
Qed.

Lemma modifiermap_at_complete (modmap : XModifierKeymap) (i j : Z) :
  modmap_complete modmap ->
  0 <= i < 8 -> 0 <= j < max_keypermod modmap ->
  modifiermap_at modmap (i * max_keypermod modmap + j)
  = Ret (nth (Z.to_nat (i * max_keypermod modmap + j))
           (modifiermap modmap) 0) [].
Proof.
  unfold modmap_complete, modifiermap_at. intros C Hi Hj.
  assert (0 <= i * max_keypermod modmap + j
          < Z.of_nat (List.length (modifiermap modmap))) as B by nia.
  destruct (Z.ltb_spec (i * max_keypermod modmap + j) 0); [lia|].
  destruct (nth_error (modifiermap modmap)
              (Z.to_nat (i * max_keypermod modmap + j))) as [code|] eqn:E.
  - now rewrite (nth_error_nth _ _ 0 E).
  - apply nth_error_None in E. lia.
Qed.

(** The loops of [get_numlockmask]: every row that holds the key code
    overwrites the mask with its own bit. *)
Lemma get_numlockmask_eq (disp : Display) :
  modmap_complete (XGetModifierMapping disp) ->
  get_numlockmask disp
  = Ret (fold_left
           (fun mask i => if row_holds disp i then Z.shiftl 1 i else mask)
           (range 8) 0) [].
Proof.
  intros C. unfold get_numlockmask.
  apply for_each_pure with
    (f := fun i mask => if row_holds disp i then Z.shiftl 1 i else mask).
  intros i mask Hi. apply range_bounds in Hi.
  rewrite for_each_pure with
    (f := fun j mask' =>
            if nth (Z.to_nat (i * max_keypermod (XGetModifierMapping disp) + j))
                 (modifiermap (XGetModifierMapping disp)) 0
               =? XKeysymToKeycode disp XK_Num_Lock
            then Z.shiftl 1 i else mask').
  - now rewrite fold_left_set.
  - intros j mask' Hj. apply range_bounds in Hj.
    rewrite modifiermap_at_complete by assumption.
    rewrite bind_ret_l || unfold bind.
    now destruct (_ =? _).
Qed.

Lemma range_8 : range 8 = [0; 1; 2; 3; 4; 5; 6; 7].
Proof. reflexivity. Qed.

Lemma fold_left_choice {S} (p : Z -> bool) (g : Z -> S) (idx : list Z) (s : S) :
  let r := fold_left (fun s' i => if p i then g i else s') idx s in
  r = s \/ exists i, In i idx /\ p i = true /\ r = g i.
Proof.
  revert s. induction idx as [|i rest IH]; intros s; [now left|].
  cbn [fold_left]. cbn zeta in IH.
  destruct (IH (if p i then g i else s)) as [E|[k [Hk [Pk E]]]].
  - rewrite E. destruct (p i) eqn:Pi; [|now left].
    right. exists i. split; [now left|]. now split.
  - right. exists k. split; [now right|]. now split.
Qed.

(** C5 (amended): on a complete mapping [get_numlockmask] returns the
    bit of the LAST modifier index, in increasing order, one of whose
    slots holds the key code of Num Lock, and 0 when no index has such
    a slot. *)
Theorem numlockmask_last_row (disp : Display) :
  modmap_complete (XGetModifierMapping disp) ->
  (forall i : Z,
      0 <= i < 8 ->
      row_holds disp i = true ->
      (forall i' : Z, i < i' < 8 -> row_holds disp i' = false) ->
      get_numlockmask disp = Ret (Z.shiftl 1 i) [])
  /\ ((forall i : Z, 0 <= i < 8 -> row_holds disp i = false) ->
      get_numlockmask disp = Ret 0 []).
Proof.
  intros C. rewrite (get_numlockmask_eq _ C), range_8. cbn [fold_left].
  split.
  - intros i Hi Hrow Hlater.
    assert (i = 0 \/ i = 1 \/ i = 2 \/ i = 3 \/ i = 4 \/ i = 5 \/ i = 6 \/ i = 7)
      as Hcases by lia.
    repeat (destruct Hcases as [->|Hcases]); try subst i;
      try rewrite (Hlater 7) by lia; try rewrite (Hlater 6) by lia;
      try rewrite (Hlater 5) by lia; try rewrite (Hlater 4) by lia;
      try rewrite (Hlater 3) by lia; try rewrite (Hlater 2) by lia;
      try rewrite (Hlater 1) by lia; rewrite Hrow; reflexivity.
  - intros Hnone.
    rewrite (Hnone 0), (Hnone 1), (Hnone 2), (Hnone 3), (Hnone 4),
      (Hnone 5), (Hnone 6), (Hnone 7) by lia.
    reflexivity.
Qed.

Lemma numlockmask_last_row_witness :
  modmap_complete (XGetModifierMapping keyboard_two_rows)
  /\ get_numlockmask keyboard_two_rows = Ret (Z.shiftl 1 3) [].
Proof.
  assert (modmap_complete (XGetModifierMapping keyboard_two_rows)) as C
    by (unfold modmap_complete; simpl; lia).
  split; [exact C|].
  apply (proj1 (numlockmask_last_row keyboard_two_rows C) 3).
  - lia.
  - reflexivity.
  - intros i' Hi'.
    assert (i' = 4 \/ i' = 5 \/ i' = 6 \/ i' = 7) as [->|[->|[->| ->]]] by lia;
      reflexivity.
Defined.

(** C5 (as stated, refuted): the key code of Num Lock is under the
    modifiers 1 and 3; the first index that holds it is 1, and the mask
    returned is the bit 3, not the bit 1. *)
Lemma numlockmask_is_not_first_row :
  find (row_holds keyboard_two_rows) (range 8) = Some 1
  /\ get_numlockmask keyboard_two_rows = Ret (Z.shiftl 1 3) []
  /\ Z.shiftl 1 3 <> Z.shiftl 1 1.
Proof. repeat split. discriminate. Qed.

(** C10: on a complete mapping the mask that [get_numlockmask] returns
    is 0 or the bit of one modifier index, [2 ^ i] with [i] from 0 to
    7: exactly one bit of it is set, also when the key code of Num Lock
    is under several modifiers. *)
Theorem numlockmask_one_bit (disp : Display) :
  modmap_complete (XGetModifierMapping disp) ->
  exists mask : Z,
    get_numlockmask disp = Ret mask []
    /\ (mask = 0
        \/ exists i : Z,
             0 <= i < 8 /\ mask = 2 ^ i
             /\ forall k : Z, 0 <= k -> Z.testbit mask k = (i =? k)).
Proof.
  intros C. rewrite (get_numlockmask_eq _ C). eexists. split; [reflexivity|].
  destruct (fold_left_choice (row_holds disp) (fun i => Z.shiftl 1 i)
              (range 8) 0) as [E|[i [Hi [_ E]]]].
  - now left.
  - right. exists i. apply range_bounds in Hi. split; [exact Hi|].
    rewrite E, Z.shiftl_1_l. split; [reflexivity|].
    intros k _. apply Z.pow2_bits_eqb. lia.
Qed.

Lemma numlockmask_one_bit_witness :
  modmap_complete (XGetModifierMapping keyboard_two_rows)
  /\ exists mask : Z,
       get_numlockmask keyboard_two_rows = Ret mask []
       /\ (mask = 0
           \/ exists i : Z,
                0 <= i < 8 /\ mask = 2 ^ i
                /\ forall k : Z, 0 <= k -> Z.testbit mask k = (i =? k)).
Proof.
  assert (modmap_complete (XGetModifierMapping keyboard_two_rows)) as C
    by (unfold modmap_complete; simpl; lia).
  split; [exact C|].
  exact (numlockmask_one_bit keyboard_two_rows C).
Defined.

(** Two rows hold the key code, and the mask is one bit, not two. *)
Example numlockmask_two_rows :
  get_numlockmask keyboard_two_rows = Ret 8 []
  /\ Z.lor (Z.shiftl 1 1) (Z.shiftl 1 3) = 10.
Proof. split; reflexivity. Qed.

(** ** Schema defaults *)

Lemma cfg_getstr_idem (v dflt : option string) :
  cfg_getstr (cfg_getstr v dflt) dflt = cfg_getstr v dflt.
Proof. destruct v, dflt; reflexivity. Qed.

Lemma cfg_size_map {A B} (f : A -> B) (l : list A) :
  cfg_size (map f l) = cfg_size l.
Proof. unfold cfg_size. now rewrite length_map. Qed.

Lemma bound_layout_defaults (sec : Cfg.layout) :
  bound_layout (Defaults.layout sec) = bound_layout sec.
Proof.
  unfold bound_layout, Defaults.layout.
  cbn [Cfg.layout_title Cfg.layout_symbol]. now rewrite cfg_getstr_idem.
Qed.

Lemma unknown_layouts_defaults (secs : list Cfg.layout) (i : Z) :
  unknown_layouts i (map Defaults.layout secs) = unknown_layouts i secs.
Proof.
  revert i. induction secs as [|s rest IH]; intros i; [reflexivity|].
  cbn [map unknown_layouts]. now rewrite bound_layout_defaults, !IH.
Qed.

Lemma parse_layouts_defaults (l : Cfg.layouts) :
  parse_layouts (Defaults.layouts l) = parse_layouts l.
Proof.
  unfold parse_layouts, Defaults.layouts. cbn [Cfg.layout_secs].
  rewrite !layouts_loop_eq, cfg_size_map, unknown_layouts_defaults, map_map.
  now rewrite (map_ext _ _ bound_layout_defaults).
Qed.

Lemma parse_rules_defaults (rules : list Cfg.rule) :
  parse_rules (map Defaults.rule rules) = parse_rules rules.
Proof.
  unfold parse_rules. rewrite map_map. apply map_ext. intros r.
  unfold parse_rule, Defaults.rule.
  cbn [Cfg.rule_name Cfg.rule_tags Cfg.rule_float].
  now rewrite !cfg_getstr_idem.
Qed.

Lemma parse_tags_defaults (tags : list Cfg.tag) :
  parse_tags (map Defaults.tag tags) = parse_tags tags.
Proof.
  unfold parse_tags, tags_loop. now rewrite cfg_size_map, map_map.
Qed.

Lemma parse_modkey_defaults (k : Cfg.keys) :
  parse_modkey (Defaults.keys k) = parse_modkey k.
Proof.
  unfold parse_modkey, Defaults.keys. cbn [Cfg.modkey].
  now rewrite cfg_getstr_idem.
Qed.

Lemma parse_key_defaults (disp : Display) (k : Cfg.key) :
  parse_key disp (Defaults.key k) = parse_key disp k.
Proof.
  unfold parse_key, Defaults.key.
  cbn [Cfg.key_modkey Cfg.key_key Cfg.key_command Cfg.key_arg].
  now rewrite !cfg_getstr_idem.
Qed.

Lemma keys_loop_defaults (disp : Display) (secs : list Cfg.key) :
  keys_loop disp (map Defaults.key secs) = keys_loop disp secs.
Proof.
  induction secs as [|k rest IH]; [reflexivity|].
  cbn [map keys_loop]. now rewrite parse_key_defaults, IH.
Qed.

(** Binding the tree with its defaults written out is binding the
    tree: same value, same diagnostics, same exit. *)
Lemma parse_config_defaults (disp : Display) (scr : Z) (parse_error : bool)
  (cfg : Cfg.t) :
  parse_config disp scr parse_error (Defaults.tree cfg)
  = parse_config disp scr parse_error cfg.
Proof.
  unfold parse_config, Defaults.tree.
  cbn [Cfg.sec_general Cfg.sec_colors Cfg.sec_statusbar Cfg.sec_tags
       Cfg.sec_layouts Cfg.sec_rules Cfg.sec_keys].
  rewrite parse_layouts_defaults, parse_rules_defaults, parse_tags_defaults,
    parse_modkey_defaults.
  unfold Defaults.general, Defaults.colors, Defaults.statusbar,
    Defaults.layouts, Defaults.keys.
  cbn [Cfg.border Cfg.snap Cfg.resize_hints Cfg.opacity_unfocused
       Cfg.focus_move_pointer Cfg.font Cfg.normal_border Cfg.normal_bg
       Cfg.normal_fg Cfg.focus_border Cfg.focus_bg Cfg.focus_fg Cfg.position
       Cfg.layout_secs Cfg.mwfact Cfg.nmaster Cfg.ncol Cfg.modkey
       Cfg.key_secs].
  rewrite !cfg_getstr_idem, keys_loop_defaults, !cfg_size_map.
  reflexivity.
Qed.

(** ** The binder as a whole *)

Lemma initxcolor_Ret (disp : Display) (scr : Z) (colstr : option string)
  (c : XColor) (log : list string) :
  initxcolor disp scr colstr = Ret c log ->
  XAllocNamedColor disp scr colstr = Some c /\ log = [].
Proof.
  unfold initxcolor.
  destruct (XAllocNamedColor disp scr colstr); [|discriminate].
  unfold ret. injection 1 as -> <-. now split.
Qed.

Tactic Notation "bind_inv" hyp(H) ident(a) ident(l) ident(E) :=
  let l' := fresh "after" in
  let L := fresh "L" in
  apply bind_Ret_inv in H as (a & l & l' & E & H & L).

(** What a run of [parse_config] that returns has gone through. *)
Lemma parse_config_Ret (disp : Display) (scr : Z) (parse_error : bool)
  (cfg : Cfg.t) (dc : DC.t) (conf : awesome_config) (log : list string) :
  parse_config disp scr parse_error cfg = Ret (dc, conf) log ->
  let ps := get_phys_screen disp scr in
  let g := Cfg.sec_general cfg in
  let c := Cfg.sec_colors cfg in
  let position :=
    statusbar_position_of
      (cfg_getstr (Cfg.position (Cfg.sec_statusbar cfg)) Schema.position) in
  exists font nb nbg fb fbg nfg ffg layouts l1 tags l2 modkey l3 numlock l4
         keys l5,
    XftFontOpenName disp ps (cfg_getstr (Cfg.font g) Schema.font) = Some font
    /\ XAllocNamedColor disp ps
         (cfg_getstr (Cfg.normal_border c) Schema.normal_border) = Some nb
    /\ XAllocNamedColor disp ps
         (cfg_getstr (Cfg.normal_bg c) Schema.normal_bg) = Some nbg
    /\ XAllocNamedColor disp ps
         (cfg_getstr (Cfg.focus_border c) Schema.focus_border) = Some fb
    /\ XAllocNamedColor disp ps
         (cfg_getstr (Cfg.focus_bg c) Schema.focus_bg) = Some fbg
    /\ XAllocNamedColor disp ps
         (cfg_getstr (Cfg.normal_fg c) Schema.normal_fg) = Some nfg
    /\ XAllocNamedColor disp ps
         (cfg_getstr (Cfg.focus_fg c) Schema.focus_fg) = Some ffg
    /\ parse_layouts (Cfg.sec_layouts cfg) = Ret layouts l1
    /\ parse_tags (Cfg.sec_tags cfg) = Ret tags l2
    /\ parse_modkey (Cfg.sec_keys cfg) = Ret modkey l3
    /\ get_numlockmask disp = Ret numlock l4
    /\ keys_loop disp (Cfg.key_secs (Cfg.sec_keys cfg)) = Ret keys l5
    /\ dc = DC.mk font
              (DC.mk_colset (pixel nb) (pixel nbg) (pixel nfg))
              (DC.mk_colset (pixel fb) (pixel fbg) (pixel ffg))
              nfg ffg
    /\ conf = mk_awesome_config scr ps
                (cfg_getint (Cfg.border g) Schema.border)
                (cfg_getint (Cfg.snap g) Schema.snap)
                (cfg_getbool (Cfg.resize_hints g) Schema.resize_hints)
                (cfg_getint (Cfg.opacity_unfocused g) Schema.opacity_unfocused)
                (cfg_getbool (Cfg.focus_move_pointer g)
                   Schema.focus_move_pointer)
                position position
                (cfg_size (Cfg.layout_secs (Cfg.sec_layouts cfg))) layouts
                (cfg_getfloat (Cfg.mwfact (Cfg.sec_layouts cfg)) Schema.mwfact)
                (cfg_getint (Cfg.nmaster (Cfg.sec_layouts cfg)) Schema.nmaster)
                (cfg_getint (Cfg.ncol (Cfg.sec_layouts cfg)) Schema.ncol)
                0%nat
                (cfg_size (Cfg.sec_rules cfg)) (parse_rules (Cfg.sec_rules cfg))
                (cfg_size (Cfg.sec_tags cfg)) tags
                modkey numlock
                (cfg_size (Cfg.key_secs (Cfg.sec_keys cfg))) keys.
Proof.
  unfold parse_config. intros H. cbn zeta.
  bind_inv H u l0 E0. clear E0.
  bind_inv H font lf Ef.
  bind_inv H nb lnb Enb. apply initxcolor_Ret in Enb as [Enb _].
  bind_inv H nbg lnbg Enbg. apply initxcolor_Ret in Enbg as [Enbg _].
  bind_inv H fb lfb Efb. apply initxcolor_Ret in Efb as [Efb _].
  bind_inv H fbg lfbg Efbg. apply initxcolor_Ret in Efbg as [Efbg _].
  bind_inv H nfg lnfg Enfg. apply initxcolor_Ret in Enfg as [Enfg _].
  bind_inv H ffg lffg Effg. apply initxcolor_Ret in Effg as [Effg _].
  bind_inv H layouts l1 El.
  bind_inv H tags l2 Et.
  bind_inv H modkey l3 Em.
  bind_inv H numlock l4 En.
  bind_inv H keys l5 Ek.
  unfold ret in H. injection H as <- <- _.
  exists font, nb, nbg, fb, fbg, nfg, ffg, layouts, l1, tags, l2, modkey, l3,
    numlock, l4, keys, l5.
  destruct (XftFontOpenName disp (get_phys_screen disp scr)
              (cfg_getstr (Cfg.font (Cfg.sec_general cfg)) Schema.font))
    as [f|]; [|discriminate].
  unfold ret in Ef. injection Ef as -> _.
  repeat (split; [assumption || reflexivity|]). reflexivity.
Qed.

Lemma parse_layouts_Ret (l : Cfg.layouts) (layouts : list Layout.t)
  (log : list string) :
  parse_layouts l = Ret layouts log ->
  layouts = map bound_layout (Cfg.layout_secs l)
  /\ exists l0 f, nth_error layouts 0 = Some l0 /\ Layout.arrange l0 = Some f.
Proof.
  unfold parse_layouts. rewrite layouts_loop_eq.
  cbn [bind]. destruct (cfg_size (Cfg.layout_secs l) =? 0); [discriminate|].
  destruct (nth_error (map bound_layout (Cfg.layout_secs l)) 0)
    as [l0|] eqn:E0; [|discriminate].
  destruct (Layout.arrange l0) as [f|] eqn:Ea; [|discriminate].
  cbn. injection 1 as <- _. split; [reflexivity|]. now exists l0, f.
Qed.

Lemma keys_loop_Ret (disp : Display) (secs : list Cfg.key) (keys : list Key.t)
  (log : list string) :
  keys_loop disp secs = Ret keys log ->
  forall (i : nat) (sec : Cfg.key),
    nth_error secs i = Some sec ->
    exists k l, nth_error keys i = Some k /\ parse_key disp sec = Ret k l.
Proof.
  revert keys log. induction secs as [|s rest IH]; intros keys log H i sec Hi.
  - now destruct i.
  - cbn [keys_loop] in H.
    bind_inv H k lk Ek. bind_inv H ks lks Eks.
    unfold ret in H. injection H as <- _.
    destruct i as [|i]; cbn in Hi |- *.
    + injection Hi as <-. now exists k, lk.
    + exact (IH _ _ Eks i sec Hi).
Qed.

Lemma parse_key_Ret (disp : Display) (sec : Cfg.key) (k : Key.t)
  (log : list string) :
  parse_key disp sec = Ret k log ->
  exists m lm f lf,
    modkey_loop (cfg_strlist (Cfg.key_modkey sec) Schema.key_modkey) 0
    = Ret m lm
    /\ name_func_lookup
         (cfg_getstr (Cfg.key_command sec) Schema.key_command)
         (Some KeyfuncList) = Ret f lf
    /\ k = Key.mk m
             (XStringToKeysym disp
                (cfg_getstr (Cfg.key_key sec) Schema.key_key))
             f (cfg_getstr (Cfg.key_arg sec) Schema.key_arg).
Proof.
  unfold parse_key. intros H.
  bind_inv H m lm Em. bind_inv H f lf Ef.
  unfold ret in H. injection H as <- _.
  now exists m, lm, f, lf.
Qed.

Ltac split_all := repeat match goal with |- _ /\ _ => split end.

Lemma bound_layout_symbol_absent (sec : Cfg.layout) :
  Cfg.layout_symbol sec = None ->
  Layout.symbol (bound_layout sec)
  = match Layout.arrange (bound_layout sec) with
    | Some _ => Some "???"
    | None => None
    end.
Proof.
  intros H. unfold bound_layout. rewrite H.
  now destruct (flatten (resolve (entries LayoutsList)
                           (Some (Cfg.layout_title sec)))).
Qed.

Lemma parse_key_absent (disp : Display) (sec : Cfg.key) (b : Key.t)
  (log : list string) :
  parse_key disp sec = Ret b log ->
  (Cfg.key_modkey sec = None -> Key.mod_ b = Mod4Mask)
  /\ (Cfg.key_key sec = None ->
      Key.keysym b = XStringToKeysym disp (Some "None"))
  /\ (Cfg.key_command sec = None -> Key.func b = None)
  /\ (Cfg.key_arg sec = None -> Key.arg b = None).
Proof.
  intros H. apply parse_key_Ret in H as (m & lm & f & lf & Em & Ef & ->).
  cbn [Key.mod_ Key.keysym Key.func Key.arg].
  split_all; intros A; rewrite A in *.
  - cbn in Em. now injection Em as <- _.
  - reflexivity.
  - cbn in Ef. now injection Ef as <- _.
  - reflexivity.
Qed.

(** C8 (amended): a tree and any tree with the same fields once the
    defaults are written out are bound alike, so that a field left out
    cannot be told from a field set to its default; and, when the
    binding returns, a field left out is bound as its default is:
    border 1, snap 8, resize_hints false, opacity_unfocused 100,
    focus_move_pointer false, the font opened from "mono-12", the six
    colours allocated from "#111111", "#111111", "#eeeeee", "#6666ff",
    "#6666ff" and "#ffffff", the statusbar at the top, mwfact 1/2,
    nmaster 1, ncol 1, the name of a rule "", its float false, the
    primary modifier and the mask of a key [Mod4Mask], the key symbol
    that of "None", no command, no argument.  Two fields are not bound
    to the default itself: the tags of a rule are null, and the symbol
    of a layout is "???" only when the title of the layout is resolved,
    and null otherwise. *)
Theorem absent_fields_bound_as_defaults (disp : Display) (scr : Z)
  (parse_error : bool) (cfg : Cfg.t) :
  (forall cfg' : Cfg.t,
      Defaults.tree cfg' = Defaults.tree cfg ->
      parse_config disp scr parse_error cfg'
      = parse_config disp scr parse_error cfg)
  /\ (forall (dc : DC.t) (conf : awesome_config) (log : list string),
        parse_config disp scr parse_error cfg = Ret (dc, conf) log ->
        general_absent disp cfg dc conf
        /\ colors_absent disp cfg dc conf
        /\ statusbar_absent cfg conf
        /\ layouts_absent cfg conf
        /\ rules_absent cfg conf
        /\ keys_absent disp cfg conf).
Proof.
  split.
  - intros cfg' E.
    rewrite <- (parse_config_defaults disp scr parse_error cfg'), E.
    apply parse_config_defaults.
  - intros dc conf log H.
    apply parse_config_Ret in H
      as (font & nb & nbg & fb & fbg & nfg & ffg & layouts & l1 & tags & l2
          & modkey & l3 & numlock & l4 & keys & l5 & Ef & Enb & Enbg & Efb
          & Efbg & Enfg & Effg & El & Et & Em & En & Ek & -> & ->).
    split; [|split; [|split; [|split; [|split]]]].
    + unfold general_absent. cbn.
      split_all; intros A; rewrite A in *; try reflexivity. exact Ef.
    + unfold colors_absent, allocated. cbn.
      split_all; intros A; rewrite A in *; split_all; eauto.
    + unfold statusbar_absent. cbn. intros A. rewrite A. now split.
    + unfold layouts_absent. cbn.
      split; [intros A; now rewrite A|].
      split; [intros A; now rewrite A|].
      split; [intros A; now rewrite A|].
      intros i sec Hi A. apply parse_layouts_Ret in El as [-> _].
      exists (bound_layout sec). split; [now apply map_nth_error|].
      now apply bound_layout_symbol_absent.
    + unfold rules_absent. cbn. intros i sec Hi.
      exists (parse_rule sec). split; [now apply map_nth_error|].
      unfold parse_rule. cbn.
      split_all; intros A; rewrite A; reflexivity.
    + unfold keys_absent. cbn. split.
      * intros A. unfold parse_modkey in Em. rewrite A in Em.
        cbn in Em. now injection Em as <- _.
      * intros i sec Hi.
        destruct (@keys_loop_Ret _ _ _ _ Ek i sec Hi) as (b & lb & Hb & Pb).
        exists b. split; [exact Hb|]. exact (@parse_key_absent _ _ _ _ Pb).
Qed.

Lemma absent_fields_bound_as_defaults_witness :
  exists (dc : DC.t) (conf : awesome_config) (log : list string),
    parse_config display_defaults_only 0 false cfg_nothing_set
    = Ret (dc, conf) log
    /\ general_absent display_defaults_only cfg_nothing_set dc conf
    /\ colors_absent display_defaults_only cfg_nothing_set dc conf
    /\ statusbar_absent cfg_nothing_set conf
    /\ layouts_absent cfg_nothing_set conf
    /\ rules_absent cfg_nothing_set conf
    /\ keys_absent display_defaults_only cfg_nothing_set conf.
Proof.
  eexists. eexists. eexists. split; [vm_compute; reflexivity|].
  apply (proj2 (absent_fields_bound_as_defaults display_defaults_only 0 false
                  cfg_nothing_set)) with (log := [unknown_layout 1]).
  vm_compute. reflexivity.
Defined.

(** C8 (as stated, refuted): in the file that sets no field, the tags
    of the rule are bound to the null pointer and not to the default
    [""], and the symbol of the second layout is bound to the null
    pointer and not to the default ["???"]. *)
Lemma absent_tags_and_symbol_are_not_defaults :
  match parse_config display_defaults_only 0 false cfg_nothing_set with
  | Ret (_, conf) _ =>
      map Rule.tags (rules conf) = [None]
      /\ map Layout.symbol (layouts conf) = [Some "???"; None]
  | _ => False
  end
  /\ map Cfg.rule_tags (Cfg.sec_rules cfg_nothing_set) = [None]
  /\ map Cfg.layout_symbol (Cfg.layout_secs (Cfg.sec_layouts cfg_nothing_set))
     = [None; None]
  /\ Schema.rule_tags = Some ""
  /\ Schema.layout_symbol = Some "???".
Proof. vm_compute. repeat split. Qed.

(** What a run that returns leaves: a first layout that can arrange, a
    first tag that is the only one selected, and tags whose [layout] is
    that first layout. *)
Lemma parse_config_invariants (disp : Display) (scr : Z) (parse_error : bool)
  (cfg : Cfg.t) (dc : DC.t) (conf : awesome_config) (log : list string) :
  parse_config disp scr parse_error cfg = Ret (dc, conf) log ->
  (exists l0 f,
      nth_error (layouts conf) 0 = Some l0 /\ Layout.arrange l0 = Some f
      /\ Forall (fun t => nth_error (layouts conf) (Tag.layout t) = Some l0)
           (tags conf))
  /\ (exists t0 rest,
         tags conf = t0 :: rest
         /\ Tag.selected t0 = true /\ Tag.was_selected t0 = true
         /\ Forall (fun t => Tag.selected t = false
                             /\ Tag.was_selected t = false) rest)
  /\ nlayouts conf = Z.of_nat (List.length (layouts conf))
  /\ ntags conf = Z.of_nat (List.length (tags conf)).
Proof.
  intros H.
  apply parse_config_Ret in H
    as (font & nb & nbg & fb & fbg & nfg & ffg & lays & l1 & tgs & l2
        & modkey & l3 & numlock & l4 & keys & l5 & _ & _ & _ & _
        & _ & _ & _ & El & Et & _ & _ & _ & _ & ->).
  cbn [layouts tags nlayouts ntags].
  apply parse_layouts_Ret in El as [El (l0 & f & H0 & Ha)].
  assert (Htags : exists t0, tgs
                  = Tag.mk (Some (Cfg.tag_title t0)) true true 0
                      :: tags_loop (tl (Cfg.sec_tags cfg))
                    /\ List.length tgs = List.length (Cfg.sec_tags cfg)).
  { unfold parse_tags in Et. destruct (Cfg.sec_tags cfg) as [|t0 rest].
    - discriminate.
    - cbn in Et. injection Et as <- _. exists t0. split; [reflexivity|].
      cbn. unfold tags_loop. now rewrite length_map. }
  destruct Htags as (t0 & Htags & Hlen).
  split; [|split; [|split]].
  - exists l0, f. split; [exact H0|]. split; [exact Ha|].
    rewrite Htags. constructor; [exact H0|].
    unfold tags_loop. apply Forall_forall. intros t Ht.
    apply in_map_iff in Ht as (s & <- & _). exact H0.
  - eexists. eexists. split; [exact Htags|]. cbn. split; [reflexivity|].
    split; [reflexivity|].
    unfold tags_loop. apply Forall_forall. intros t Ht.
    apply in_map_iff in Ht as (s & <- & _). now split.
  - rewrite El. unfold cfg_size. now rewrite length_map.
  - unfold cfg_size. now rewrite Hlen.
Qed.

(** A whole file with one modifier that [KeyModList] does not hold. *)
Example parse_config_unknown_modifier :
  parse_config display_defaults_only 0 false
    (Cfg.mk
       (Cfg.mk_general None None None None None None)
       (Cfg.mk_colors None None None None None None)
       (Cfg.mk_statusbar None)
       [Cfg.mk_tag "one" None]
       (Cfg.mk_layouts [Cfg.mk_layout "tile" None] None None None)
       []
       (Cfg.mk_keys None
          [Cfg.mk_key (Some ["Mod4"; "Super"]) (Some "Return")
             (Some "spawn") (Some "xterm")]))
  = Undef.
Proof. reflexivity. Qed.

(** ** Exits of the binder *)

Lemma is_exit_bind {A B} (m : outcome A) (f : A -> outcome B) :
  is_exit (bind m f)
  = match m with
    | Ret a _ => is_exit (f a)
    | Exit _ => true
    | Undef => false
    end.
Proof.
  destruct m as [a l| |]; cbn; try reflexivity. now destruct (f a).
Qed.

Lemma is_undef_bind {A B} (m : outcome A) (f : A -> outcome B) :
  is_undef (bind m f)
  = match m with
    | Ret a _ => is_undef (f a)
    | Exit _ => false
    | Undef => true
    end.
Proof.
  destruct m as [a l| |]; cbn; try reflexivity. now destruct (f a).
Qed.

Lemma quiet_bind {A B} (m : outcome A) (f : A -> outcome B) :
  quiet m -> (forall a, quiet (f a)) -> quiet (bind m f).
Proof.
  destruct m as [a l| |]; cbn; try tauto. intros -> H.
  specialize (H a). now destruct (f a).
Qed.

Lemma quiet_ret {A} (a : A) : quiet (ret a).
Proof. reflexivity. Qed.

Lemma quiet_not_exit {A} (m : outcome A) : quiet m -> is_exit m = false.
Proof. now destruct m. Qed.

Lemma quiet_key_mask_lookup (name : option string) :
  quiet (key_mask_lookup name).
Proof.
  destruct name as [s|]; [|reflexivity]. rewrite key_mask_lookup_resolve.
  now destruct (resolve (key_entries KeyModList) (Some s)).
Qed.

Lemma quiet_for_each {S} (idx : list Z) (body : Z -> S -> outcome S) (s : S) :
  (forall i s', quiet (body i s')) -> quiet (for_each idx body s).
Proof.
  intros H. revert s. induction idx as [|i rest IH]; intros s; [reflexivity|].
  cbn [for_each]. apply quiet_bind; [apply H | exact IH].
Qed.

Lemma quiet_modifiermap_at (modmap : XModifierKeymap) (k : Z) :
  quiet (modifiermap_at modmap k).
Proof.
  unfold modifiermap_at. destruct (k <? 0); [exact I|].
  now destruct (nth_error (modifiermap modmap) (Z.to_nat k)).
Qed.

Lemma quiet_get_numlockmask (disp : Display) : quiet (get_numlockmask disp).
Proof.
  unfold get_numlockmask. apply quiet_for_each. intros i mask.
  apply quiet_for_each. intros j mask'.
  apply quiet_bind; [apply quiet_modifiermap_at|].
  intros code. now destruct (code =? _).
Qed.

Lemma quiet_modkey_loop (names : list string) (mod0 : Z) :
  quiet (modkey_loop names mod0).
Proof.
  revert mod0. induction names as [|n rest IH]; intros mod0; [reflexivity|].
  cbn [modkey_loop]. apply quiet_bind; [apply quiet_key_mask_lookup|].
  intros m. apply IH.
Qed.

Lemma quiet_keyfunc_lookup (name : option string) :
  quiet (name_func_lookup name (Some KeyfuncList)).
Proof.
  destruct name as [s|]; [|reflexivity]. now rewrite keyfunc_lookup_resolve.
Qed.

Lemma quiet_parse_key (disp : Display) (sec : Cfg.key) :
  quiet (parse_key disp sec).
Proof.
  unfold parse_key. apply quiet_bind; [apply quiet_modkey_loop|].
  intros m. apply quiet_bind; [apply quiet_keyfunc_lookup|].
  intros f. apply quiet_ret.
Qed.

Lemma quiet_keys_loop (disp : Display) (secs : list Cfg.key) :
  quiet (keys_loop disp secs).
Proof.
  induction secs as [|sec rest IH]; [reflexivity|].
  cbn [keys_loop]. apply quiet_bind; [apply quiet_parse_key|].
  intros k. apply quiet_bind; [exact IH|]. intros ks. apply quiet_ret.
Qed.

Lemma quiet_parse_modkey (cfg_keys : Cfg.keys) : quiet (parse_modkey cfg_keys).
Proof.
  unfold parse_modkey. apply quiet_bind; [apply quiet_key_mask_lookup|].
  intros m. apply quiet_ret.
Qed.

Lemma is_exit_initxcolor_bind {B} (disp : Display) (scr : Z)
  (name : option string) (f : XColor -> outcome B) :
  is_exit (bind (initxcolor disp scr name) f)
  = match XAllocNamedColor disp scr name with
    | Some c => is_exit (f c)
    | None => true
    end.
Proof.
  rewrite is_exit_bind. unfold initxcolor.
  now destruct (XAllocNamedColor disp scr name).
Qed.

(** The layouts, in one equation: the entries bound and the
    diagnostics written, and the exit when the first entry cannot
    arrange. *)
Lemma parse_layouts_eq (cfg : Cfg.t) :
  parse_layouts (Cfg.sec_layouts cfg)
  = if default_layout_usable cfg
    then Ret (map bound_layout (Cfg.layout_secs (Cfg.sec_layouts cfg)))
           (unknown_layouts 0 (Cfg.layout_secs (Cfg.sec_layouts cfg)))
    else Exit (unknown_layouts 0 (Cfg.layout_secs (Cfg.sec_layouts cfg))
               ++ [no_default_layout]).
Proof.
  unfold parse_layouts, default_layout_usable. rewrite layouts_loop_eq.
  destruct (Cfg.layout_secs (Cfg.sec_layouts cfg)) as [|s rest];
    [reflexivity|].
  cbn [cfg_size List.length map nth_error bind].
  replace (Z.of_nat (S (List.length rest)) =? 0) with false
    by (symmetry; apply Z.eqb_neq; lia).
  destruct (Layout.arrange (bound_layout s)); cbn; [|reflexivity].
  now rewrite app_nil_r.
Qed.

Lemma parse_tags_eq (cfg : Cfg.t) :
  parse_tags (Cfg.sec_tags cfg)
  = if has_tags cfg
    then Ret (match tags_loop (Cfg.sec_tags cfg) with
              | t0 :: rest =>
                  Tag.mk (Tag.name t0) true true (Tag.layout t0) :: rest
              | [] => []
              end) []
    else Exit [no_tags].
Proof.
  unfold parse_tags, has_tags.
  destruct (Cfg.sec_tags cfg) as [|s rest]; [reflexivity|].
  cbn [cfg_size List.length].
  replace (Z.of_nat (S (List.length rest)) =? 0) with false
    by (symmetry; apply Z.eqb_neq; lia).
  reflexivity.
Qed.

(** The part of [parse_config] that follows the tags: the primary
    modifier, the mask of Num Lock and the keys. *)
Lemma quiet_keys_part {B} (disp : Display) (cfg_keys : Cfg.keys)
  (k : Z -> Z -> list Key.t -> B) :
  quiet (modkey <- parse_modkey cfg_keys ;;
         numlockmask <- get_numlockmask disp ;;
         keys <- keys_loop disp (Cfg.key_secs cfg_keys) ;;
         ret (k modkey numlockmask keys)).
Proof.
  apply quiet_bind; [apply quiet_parse_modkey|]. intros m.
  apply quiet_bind; [apply quiet_get_numlockmask|]. intros n.
  apply quiet_bind; [apply quiet_keys_loop|]. intros ks. apply quiet_ret.
Qed.

(** [parse_config] ends the process in four cases and in no other: the
    font cannot be opened, one of the six colours cannot be allocated,
    there is no layout or the first layout is of an unknown name, there
    is no tag.  Nothing in the rules or in the keys ends it. *)
Theorem parse_config_exits (disp : Display) (scr : Z) (parse_error : bool)
  (cfg : Cfg.t) :
  is_exit (parse_config disp scr parse_error cfg)
  = negb (font_opens disp scr cfg && colors_allocate disp scr cfg
          && default_layout_usable cfg && has_tags cfg).
Proof.
  unfold parse_config. rewrite is_exit_bind.
  assert (Hpe : exists l, (if parse_error
                           then fprintf_stderr
                                  ("awesome: error parsing configuration file"
                                   ++ nl)
                           else ret tt) = Ret tt l)
    by (destruct parse_error; eexists; reflexivity).
  destruct Hpe as [lpe ->].
  unfold font_opens, colors_allocate, color_names. cbn [forallb].
  rewrite is_exit_bind.
  destruct (XftFontOpenName disp (get_phys_screen disp scr)
              (cfg_getstr (Cfg.font (Cfg.sec_general cfg)) Schema.font));
    [|reflexivity].
  cbn [ret is_some andb].
  repeat (rewrite is_exit_initxcolor_bind;
          match goal with
          | |- context [XAllocNamedColor ?d ?s ?n] =>
              destruct (XAllocNamedColor d s n) eqn:?
          end; cbn [is_some andb negb]; try reflexivity).
  rewrite is_exit_bind, parse_layouts_eq.
  destruct (default_layout_usable cfg); [|reflexivity].
  rewrite is_exit_bind, parse_tags_eq.
  destruct (has_tags cfg); [|reflexivity].
  cbn [andb negb]. apply quiet_not_exit. apply quiet_keys_part.
Qed.

(** ** Undefined behaviour of the binder *)

Lemma is_undef_quiet_ret {A} (m : outcome A) :
  quiet m -> is_undef m = false -> exists a, m = Ret a [].
Proof.
  destruct m as [a l| |]; cbn; try easy. intros -> _. now exists a.
Qed.

Lemma is_undef_key_mask_lookup (s : string) :
  is_undef (key_mask_lookup (Some s)) = negb (in_KeyModList s).
Proof.
  rewrite key_mask_lookup_resolve. unfold in_KeyModList.
  now destruct (resolve (key_entries KeyModList) (Some s)).
Qed.

Lemma is_undef_parse_modkey (cfg : Cfg.t) :
  is_undef (parse_modkey (Cfg.sec_keys cfg)) = negb (modkey_known cfg).
Proof.
  unfold parse_modkey, modkey_known. rewrite is_undef_bind.
  destruct (cfg_getstr (Cfg.modkey (Cfg.sec_keys cfg)) Schema.modkey)
    as [s|]; [|reflexivity].
  rewrite <- is_undef_key_mask_lookup.
  now destruct (key_mask_lookup (Some s)).
Qed.

Lemma is_undef_modkey_loop (names : list string) (mod0 : Z) :
  is_undef (modkey_loop names mod0) = negb (forallb in_KeyModList names).
Proof.
  destruct (forallb in_KeyModList names) eqn:E.
  - now rewrite (modkey_loop_resolved _ _ E).
  - now rewrite (modkey_loop_unresolved _ _ E).
Qed.

Lemma is_undef_parse_key (disp : Display) (sec : Cfg.key) :
  is_undef (parse_key disp sec)
  = negb (forallb in_KeyModList
            (cfg_strlist (Cfg.key_modkey sec) Schema.key_modkey)).
Proof.
  unfold parse_key. rewrite is_undef_bind, <- (is_undef_modkey_loop _ 0).
  cbn [p_new_Key Key.mod_].
  destruct (modkey_loop _ 0) as [m l| |]; try reflexivity.
  rewrite is_undef_bind.
  destruct (cfg_getstr (Cfg.key_command sec) Schema.key_command) as [c|].
  - now rewrite keyfunc_lookup_resolve.
  - reflexivity.
Qed.

Lemma is_undef_keys_loop (disp : Display) (secs : list Cfg.key) :
  is_undef (keys_loop disp secs)
  = negb (forallb (fun sec =>
                     forallb in_KeyModList
                       (cfg_strlist (Cfg.key_modkey sec) Schema.key_modkey))
            secs).
Proof.
  induction secs as [|sec rest IH]; [reflexivity|].
  cbn [keys_loop forallb]. rewrite is_undef_bind, negb_andb.
  rewrite <- (is_undef_parse_key disp), <- IH.
  pose proof (quiet_parse_key disp sec) as Q.
  destruct (parse_key disp sec) as [k l| |]; cbn in Q |- *; try easy.
  rewrite is_undef_bind.
  destruct (keys_loop disp rest) as [ks l'| |]; reflexivity.
Qed.

Lemma is_undef_initxcolor_bind {B} (disp : Display) (scr : Z)
  (name : option string) (f : XColor -> outcome B) :
  is_undef (bind (initxcolor disp scr name) f)
  = match XAllocNamedColor disp scr name with
    | Some c => is_undef (f c)
    | None => false
    end.
Proof.
  rewrite is_undef_bind. unfold initxcolor.
  now destruct (XAllocNamedColor disp scr name).
Qed.

(** The behaviour of [parse_config] is undefined in these cases and in
    no other: none of the four fatal conditions holds, and a modifier
    name of the keys section ([keys.modkey] or a modifier of a key) is
    not in [KeyModList], or [get_numlockmask] reads outside the
    modifier mapping. *)
Theorem parse_config_undefined (disp : Display) (scr : Z) (parse_error : bool)
  (cfg : Cfg.t) :
  is_undef (parse_config disp scr parse_error cfg)
  = font_opens disp scr cfg && colors_allocate disp scr cfg
    && default_layout_usable cfg && has_tags cfg
    && negb (modkey_known cfg
             && negb (is_undef (get_numlockmask disp))
             && key_modifiers_known cfg).
Proof.
  unfold parse_config. rewrite is_undef_bind.
  assert (Hpe : exists l, (if parse_error
                           then fprintf_stderr
                                  ("awesome: error parsing configuration file"
                                   ++ nl)
                           else ret tt) = Ret tt l)
    by (destruct parse_error; eexists; reflexivity).
  destruct Hpe as [lpe ->].
  unfold font_opens, colors_allocate, color_names. cbn [forallb].
  rewrite is_undef_bind.
  destruct (XftFontOpenName disp (get_phys_screen disp scr)
              (cfg_getstr (Cfg.font (Cfg.sec_general cfg)) Schema.font));
    [|reflexivity].
  cbn [ret is_some andb].
  repeat (rewrite is_undef_initxcolor_bind;
          match goal with
          | |- context [XAllocNamedColor ?d ?s ?n] =>
              destruct (XAllocNamedColor d s n) eqn:?
          end; cbn [is_some andb negb]; try reflexivity).
  rewrite is_undef_bind, parse_layouts_eq.
  destruct (default_layout_usable cfg); [|reflexivity].
  rewrite is_undef_bind, parse_tags_eq.
  destruct (has_tags cfg); [|reflexivity].
  cbn [andb]. rewrite is_undef_bind.
  pose proof (is_undef_parse_modkey cfg) as Hm.
  pose proof (quiet_parse_modkey (Cfg.sec_keys cfg)) as Qm.
  destruct (parse_modkey (Cfg.sec_keys cfg)) as [m lm| |]; cbn in Hm, Qm;
    [|contradiction|];
    apply (f_equal negb) in Hm; rewrite negb_involutive in Hm;
    rewrite <- Hm; cbn [negb andb]; try reflexivity.
  rewrite is_undef_bind.
  pose proof (quiet_get_numlockmask disp) as Qn.
  destruct (get_numlockmask disp) as [n ln| |]; cbn in Qn;
    [|contradiction|]; cbn [is_undef negb andb]; try reflexivity.
  rewrite is_undef_bind. unfold key_modifiers_known.
  rewrite <- (is_undef_keys_loop disp).
  destruct (keys_loop disp (Cfg.key_secs (Cfg.sec_keys cfg))) as [ks lk| |];
    reflexivity.
Qed.

(** ** get_numlockmask: the slots that are read *)

Lemma range_In (n i : Z) : 0 <= i < n -> In i (range n).
Proof.
  intros H. unfold range. apply in_map_iff. exists (Z.to_nat i).
  split; [lia|]. apply in_seq. lia.
Qed.

(** A loop whose body neither exits nor writes runs its body at every
    index, unless its behaviour is undefined. *)
Lemma for_each_reaches {S} (idx : list Z) (body : Z -> S -> outcome S) (s : S) :
  (forall i s', quiet (body i s')) ->
  is_undef (for_each idx body s) = false ->
  forall i, In i idx -> exists s', is_undef (body i s') = false.
Proof.
  intros Q. revert s. induction idx as [|i0 rest IH]; intros s H i Hi;
    [contradiction|].
  cbn [for_each] in H. rewrite is_undef_bind in H.
  pose proof (Q i0 s) as Q0.
  destruct (body i0 s) as [s1 l| |] eqn:E; cbn in Q0;
    [|contradiction|discriminate].
  destruct Hi as [<-|Hi].
  - exists s. now rewrite E.
  - exact (IH s1 H i Hi).
Qed.

Lemma quiet_numlock_slot (disp : Display) (i j mask : Z) :
  quiet (code <- modifiermap_at (XGetModifierMapping disp)
                   (i * max_keypermod (XGetModifierMapping disp) + j) ;;
         if code =? XKeysymToKeycode disp XK_Num_Lock
         then ret (Z.shiftl 1 i)
         else ret mask).
Proof.
  apply quiet_bind; [apply quiet_modifiermap_at|].
  intros code. now destruct (code =? _).
Qed.

Lemma quiet_numlock_row (disp : Display) (i mask : Z) :
  quiet (for_each (range (max_keypermod (XGetModifierMapping disp)))
           (fun j mask0 =>
              code <- modifiermap_at (XGetModifierMapping disp)
                        (i * max_keypermod (XGetModifierMapping disp) + j) ;;
              if code =? XKeysymToKeycode disp XK_Num_Lock
              then ret (Z.shiftl 1 i)
              else ret mask0)
           mask).
Proof. apply quiet_for_each. intros j mask'. apply quiet_numlock_slot. Qed.

(** When [get_numlockmask] has a defined behaviour, it has read the
    last slot of the eighth row. *)
Lemma numlockmask_defined_complete (disp : Display) :
  is_undef (get_numlockmask disp) = false ->
  modmap_complete (XGetModifierMapping disp).
Proof.
  intros H. unfold modmap_complete.
  destruct (Z.le_gt_cases (max_keypermod (XGetModifierMapping disp)) 0)
    as [Hm|Hm]; [lia|].
  unfold get_numlockmask in H.
  assert (In 7 (range 8)) as I7 by (apply range_In; lia).
  destruct (@for_each_reaches Z _ _ 0 (quiet_numlock_row disp) H 7 I7)
    as [mask H7].
  assert (In (max_keypermod (XGetModifierMapping disp) - 1)
            (range (max_keypermod (XGetModifierMapping disp))))
    as Im by (apply range_In; lia).
  destruct (@for_each_reaches Z _ _ mask (quiet_numlock_slot disp 7) H7
              (max_keypermod (XGetModifierMapping disp) - 1) Im)
    as [mask' H8].
  rewrite is_undef_bind in H8. unfold modifiermap_at in H8.
  destruct (7 * max_keypermod (XGetModifierMapping disp)
            + (max_keypermod (XGetModifierMapping disp) - 1) <? 0);
    [discriminate|].
  destruct (nth_error (modifiermap (XGetModifierMapping disp))
              (Z.to_nat (7 * max_keypermod (XGetModifierMapping disp)
                         + (max_keypermod (XGetModifierMapping disp) - 1))))
    eqn:E; [|discriminate].
  assert (Z.to_nat (7 * max_keypermod (XGetModifierMapping disp)
                    + (max_keypermod (XGetModifierMapping disp) - 1))
          < List.length (modifiermap (XGetModifierMapping disp)))%nat
    by (apply nth_error_Some; congruence).
  lia.
Qed.

(** [get_numlockmask] reads the [8 * max_keypermod] first slots of the
    mapping, all of them: its behaviour is undefined exactly when the
    mapping has fewer slots.  Otherwise it returns, and in no case does
    it exit or write. *)
Theorem numlockmask_undefined_iff (disp : Display) :
  (get_numlockmask disp = Undef
   <-> Z.of_nat (List.length (modifiermap (XGetModifierMapping disp)))
       < 8 * max_keypermod (XGetModifierMapping disp))
  /\ (get_numlockmask disp <> Undef ->
      exists mask, get_numlockmask disp = Ret mask []).
Proof.
  pose proof (numlockmask_defined_complete disp) as Hdef.
  split; [split|].
  - intros U.
    destruct (Z.lt_ge_cases
                (Z.of_nat
                   (List.length (modifiermap (XGetModifierMapping disp))))
                (8 * max_keypermod (XGetModifierMapping disp))) as [L|G];
      [exact L|].
    rewrite (get_numlockmask_eq disp) in U; [discriminate|].
    unfold modmap_complete. lia.
  - intros L. destruct (get_numlockmask disp) as [m l| |] eqn:E;
      [| |reflexivity].
    + assert (modmap_complete (XGetModifierMapping disp)) as C
        by (apply Hdef; try rewrite E; reflexivity).
      unfold modmap_complete in C. lia.
    + pose proof (quiet_get_numlockmask disp) as Q. rewrite E in Q.
      contradiction.
  - intros N. pose proof (quiet_get_numlockmask disp) as Q.
    destruct (get_numlockmask disp) as [m l| |]; cbn in Q;
      [|contradiction|congruence].
    subst l. now exists m.
Qed.

Lemma numlockmask_undefined_iff_witness :
  Z.of_nat (List.length
              (modifiermap
                 (XGetModifierMapping
                    (keyboard (mk_XModifierKeymap 2 [0; 77; 0; 0; 0; 0; 0; 0])
                       77))))
  < 8 * max_keypermod
          (XGetModifierMapping
             (keyboard (mk_XModifierKeymap 2 [0; 77; 0; 0; 0; 0; 0; 0]) 77))
  /\ get_numlockmask
       (keyboard (mk_XModifierKeymap 2 [0; 77; 0; 0; 0; 0; 0; 0]) 77)
     = Undef.
Proof.
  assert (Z.of_nat (List.length
                      (modifiermap
                         (XGetModifierMapping
                            (keyboard
                               (mk_XModifierKeymap 2 [0; 77; 0; 0; 0; 0; 0; 0])
                               77))))
          < 8 * max_keypermod
                  (XGetModifierMapping
                     (keyboard
                        (mk_XModifierKeymap 2 [0; 77; 0; 0; 0; 0; 0; 0]) 77)))
    as L by (simpl; lia).
  split; [exact L|].
  exact (proj2 (proj1 (numlockmask_undefined_iff
                         (keyboard
                            (mk_XModifierKeymap 2 [0; 77; 0; 0; 0; 0; 0; 0])
                            77))) L).
Defined.

(** ** Returns of the binder *)

(** [parse_config] returns when the font can be opened, the colours can
    be allocated, the first layout is known, there is a tag, the
    modifier names of the keys section are names of [KeyModList] and
    the modifier mapping is complete.  What it has then written is the
    diagnostic of the parse error, if there was one, and after it one
    diagnostic for each layout of an unknown name, in the order of the
    layouts; commands and key symbols that are not resolved are not
    reported. *)
Theorem parse_config_returns (disp : Display) (scr : Z) (parse_error : bool)
  (cfg : Cfg.t) :
  font_opens disp scr cfg = true ->
  colors_allocate disp scr cfg = true ->
  default_layout_usable cfg = true ->
  has_tags cfg = true ->
  modkey_known cfg = true ->
  key_modifiers_known cfg = true ->
  modmap_complete (XGetModifierMapping disp) ->
  exists (dc : DC.t) (conf : awesome_config),
    parse_config disp scr parse_error cfg
    = Ret (dc, conf)
        (parse_error_log parse_error
         ++ unknown_layouts 0 (Cfg.layout_secs (Cfg.sec_layouts cfg))).
Proof.
  unfold font_opens, colors_allocate, color_names. cbn [forallb].
  intros Hf Hc Hl Ht Hm Hk Hn.
  destruct (@is_undef_quiet_ret _ _ (quiet_parse_modkey (Cfg.sec_keys cfg)))
    as [m Em]; [now rewrite is_undef_parse_modkey, Hm|].
  destruct (@is_undef_quiet_ret _ _
              (quiet_keys_loop disp (Cfg.key_secs (Cfg.sec_keys cfg))))
    as [ks Ek]; [rewrite is_undef_keys_loop; unfold key_modifiers_known in Hk;
                 now rewrite Hk|].
  unfold parse_config, initxcolor.
  rewrite parse_layouts_eq, Hl, parse_tags_eq, Ht, Em,
    (get_numlockmask_eq disp Hn), Ek.
  destruct (XftFontOpenName disp (get_phys_screen disp scr)
              (cfg_getstr (Cfg.font (Cfg.sec_general cfg)) Schema.font));
    [|discriminate].
  repeat match type of Hc with
         | context [XAllocNamedColor ?d ?s ?n] =>
             destruct (XAllocNamedColor d s n) eqn:?;
             cbn [is_some andb] in Hc; [|discriminate]
         end.
  destruct parse_error; cbn; rewrite ?app_nil_r; eexists; eexists;
    reflexivity.
Qed.

Lemma parse_config_returns_witness :
  exists (dc : DC.t) (conf : awesome_config),
    parse_config display_defaults_only 0 true cfg_nothing_set
    = Ret (dc, conf)
        (parse_error_log true
         ++ unknown_layouts 0
              (Cfg.layout_secs (Cfg.sec_layouts cfg_nothing_set))).
Proof.
  apply (@parse_config_returns display_defaults_only 0 true cfg_nothing_set);
    try reflexivity.
  unfold modmap_complete. simpl. lia.
Defined.

(** ** The lookups, on the tables as they are *)

(** [name_func_lookup] goes through the table from its first element:
    when the elements before [e] have names that are not null and are
    not the name asked for, the lookup returns the function of [e] if
    [e] has that name, and the null pointer if [e] has a null name.  The
    elements after [e] are not looked at, and nothing is written. *)
Theorem name_func_lookup_first_match {F} (s : string)
  (pre post : list (NameFuncLink.t F)) (e : NameFuncLink.t F) :
  Forall (fun x => exists n, NameFuncLink.name x = Some n /\ n <> s) pre ->
  (NameFuncLink.name e = Some s ->
   name_func_lookup (Some s) (Some (pre ++ e :: post)%list)
   = Ret (NameFuncLink.func e) [])
  /\ (NameFuncLink.name e = None ->
      name_func_lookup (Some s) (Some (pre ++ e :: post)%list) = Ret None []).
Proof.
  intros Hpre. unfold name_func_lookup.
  induction Hpre as [|x pre (n & Hn & Hs) _ IH]; cbn [app name_func_scan].
  - split; intros ->; [|reflexivity].
    rewrite a_strcmp_eqb, String.eqb_refl. reflexivity.
  - rewrite Hn, a_strcmp_eqb.
    destruct (String.eqb_spec s n) as [->|_]; [congruence|exact IH].
Qed.

Lemma name_func_lookup_first_match_witness :
  name_func_lookup (Some "max")
    (Some ([NameFuncLink.mk (Some "tile") (Some layout_tile);
            NameFuncLink.mk (Some "tileleft") (Some layout_tileleft)]
           ++ NameFuncLink.mk (Some "max") (Some layout_max)
              :: [NameFuncLink.mk (Some "floating") (Some layout_floating);
                  NameFuncLink.mk None None])%list)
  = Ret (Some layout_max) [].
Proof.
  refine (proj1 (@name_func_lookup_first_match layout_fn "max" _ _
                   (NameFuncLink.mk (Some "max") (Some layout_max)) _)
            eq_refl).
  repeat constructor; eexists; (split; [reflexivity|discriminate]).
Defined.

(** Every element of the three tables is found under its own name: no
    name of a table is hidden by an earlier element of the same name.
    For the sentinels of [LayoutsList] and [KeyfuncList] this says that
    the null name is resolved to the null pointer. *)
Theorem tables_hide_no_entry :
  (forall e, In e KeyModList ->
             key_mask_lookup (KeyMod.name e) = Ret (KeyMod.keysym e) [])
  /\ (forall e, In e LayoutsList ->
                name_func_lookup (NameFuncLink.name e) (Some LayoutsList)
                = Ret (NameFuncLink.func e) [])
  /\ (forall e, In e KeyfuncList ->
                name_func_lookup (NameFuncLink.name e) (Some KeyfuncList)
                = Ret (NameFuncLink.func e) []).
Proof.
  split; [|split]; intros e H; cbn in H;
    repeat (destruct H as [<-|H]; [reflexivity|]); contradiction.
Qed.

Lemma resolve_In {C} (table : list (string * C)) (s : string) (c : C) :
  resolve table (Some s) = Some c -> In (s, c) table.
Proof.
  unfold resolve. destruct (find _ table) as [[n c']|] eqn:E; [|discriminate].
  cbn. injection 1 as ->. apply find_some in E as [I Hn]. cbn in Hn.
  apply String.eqb_eq in Hn. now subst n.
Qed.

Lemma key_mask_lookup_In (s : string) (m : Z) (log : list string) :
  key_mask_lookup (Some s) = Ret m log ->
  In (s, m) (key_entries KeyModList) /\ log = [].
Proof.
  rewrite key_mask_lookup_resolve.
  destruct (resolve (key_entries KeyModList) (Some s)) as [m'|] eqn:E;
    [|discriminate].
  injection 1 as <- <-. split; [now apply resolve_In|reflexivity].
Qed.

(** The masks that [key_mask_lookup] returns: the mask of a name is 0
    (that of ["None"] and of no other name) or one of the eight bits
    [2 ^ 0] to [2 ^ 7], and two names that are given the same mask are
    the same name. *)
Theorem key_mask_lookup_masks (s1 s2 : string) (m : Z) (l1 l2 : list string) :
  key_mask_lookup (Some s1) = Ret m l1 ->
  key_mask_lookup (Some s2) = Ret m l2 ->
  s1 = s2
  /\ (m = 0 <-> s1 = "None")
  /\ (m <> 0 -> exists i, 0 <= i < 8 /\ m = 2 ^ i).
Proof.
  intros H1 H2.
  apply key_mask_lookup_In in H1 as [H1 _].
  apply key_mask_lookup_In in H2 as [H2 _].
  cbn in H1, H2.
  repeat (destruct H1 as [H1|H1];
          [injection H1 as <- <-|]); try contradiction;
    (repeat (destruct H2 as [H2|H2];
             [try discriminate H2; injection H2 as <-|]);
     try contradiction);
    (split; [reflexivity|]);
    (split; [split; intros E; try discriminate E; reflexivity|]);
    intros N; try (now elim N).
  - now exists 0.
  - now exists 1.
  - now exists 2.
  - now exists 3.
  - now exists 4.
  - now exists 5.
  - now exists 6.
  - now exists 7.
Qed.

Lemma key_mask_lookup_masks_witness :
  key_mask_lookup (Some "Mod1") = Ret 8 []
  /\ ("Mod1" = "Mod1"
      /\ (8 = 0 <-> "Mod1" = "None")
      /\ (8 <> 0 -> exists i, 0 <= i < 8 /\ 8 = 2 ^ i)).
Proof.
  split; [reflexivity|].
  exact (@key_mask_lookup_masks "Mod1" "Mod1" 8 [] [] eq_refl eq_refl).
Defined.

(** ** Keys: what the mask of a binding depends on *)

Lemma testbit_fold_lor (l : list Z) (a k : Z) :
  Z.testbit (fold_left Z.lor l a) k
  = Z.testbit a k || existsb (fun m => Z.testbit m k) l.
Proof.
  revert a. induction l as [|m rest IH]; intros a; cbn [fold_left existsb].
  - now rewrite orb_false_r.
  - now rewrite IH, Z.lor_spec, orb_assoc.
Qed.

Lemma fold_lor_same_elements (l1 l2 : list Z) (a : Z) :
  (forall m, In m l1 <-> In m l2) ->
  fold_left Z.lor l1 a = fold_left Z.lor l2 a.
Proof.
  intros H. apply Z.bits_inj. intros k. rewrite !testbit_fold_lor. f_equal.
  apply eq_true_iff_eq. rewrite !existsb_exists.
  split; intros (m & I & T); exists m; (split; [now apply H | exact T]).
Qed.

(** The mask of a binding depends on the modifier names that are
    listed for it, and neither on their order nor on how often a name
    is listed. *)
Theorem modkey_loop_same_names (names1 names2 : list string) (mod0 : Z) :
  (forall n, In n names1 <-> In n names2) ->
  modkey_loop names1 mod0 = modkey_loop names2 mod0.
Proof.
  intros H.
  assert (forallb in_KeyModList names1 = forallb in_KeyModList names2) as E.
  { apply eq_true_iff_eq. rewrite !forallb_forall.
    split; intros A n I; apply A; now apply H. }
  destruct (forallb in_KeyModList names2) eqn:E2.
  - rewrite (modkey_loop_resolved _ _ E), (modkey_loop_resolved _ _ E2).
    f_equal. apply fold_lor_same_elements. intros m. rewrite !in_map_iff.
    split; intros (n & <- & I); exists n; (split; [reflexivity|now apply H]).
  - now rewrite (modkey_loop_unresolved _ _ E), (modkey_loop_unresolved _ _ E2).
Qed.

Lemma modkey_loop_same_names_witness :
  modkey_loop ["Shift"; "Mod4"; "Shift"] 0 = modkey_loop ["Mod4"; "Shift"] 0.
Proof.
  apply (@modkey_loop_same_names ["Shift"; "Mod4"; "Shift"] ["Mod4"; "Shift"] 0).
  intros n. cbn. tauto.
Defined.

Lemma lor_below_256 (a b : Z) :
  0 <= a < 256 -> 0 <= b < 256 -> 0 <= Z.lor a b < 256.
Proof.
  intros Ha Hb.
  assert (0 <= Z.lor a b) as N by (apply Z.lor_nonneg; lia).
  split; [exact N|].
  destruct (Z.eq_dec (Z.lor a b) 0) as [->|NZ]; [lia|].
  change 256 with (2 ^ 8). apply Z.log2_lt_pow2; [lia|].
  rewrite Z.log2_lor by lia.
  assert (forall x, 0 <= x < 256 -> Z.log2 x < 8) as L.
  { intros x Hx. destruct (Z.eq_dec x 0) as [->|]; [reflexivity|].
    apply Z.log2_lt_pow2; [lia|]. change (2 ^ 8) with 256. lia. }
  pose proof (L a Ha). pose proof (L b Hb). lia.
Qed.

Lemma mask_of_below_256 (n : string) : 0 <= mask_of n < 256.
Proof.
  unfold mask_of.
  destruct (resolve (key_entries KeyModList) (Some n)) as [m|] eqn:E; [|lia].
  apply resolve_In in E. cbn in E.
  repeat (destruct E as [E|E]; [injection E as _ <-; cbv; split; congruence|]).
  contradiction.
Qed.

Lemma fold_lor_below_256 (l : list Z) (a : Z) :
  0 <= a < 256 -> Forall (fun m => 0 <= m < 256) l ->
  0 <= fold_left Z.lor l a < 256.
Proof.
  intros Ha Hl. revert a Ha. induction Hl as [|m rest Hm _ IH]; intros a Ha;
    [exact Ha|].
  cbn [fold_left]. apply IH. now apply lor_below_256.
Qed.

Lemma keys_loop_length (disp : Display) (secs : list Cfg.key)
  (keys : list Key.t) (log : list string) :
  keys_loop disp secs = Ret keys log ->
  List.length keys = List.length secs.
Proof.
  revert keys log. induction secs as [|s rest IH]; intros keys log H.
  - cbn in H. now injection H as <- _.
  - cbn [keys_loop] in H. bind_inv H k lk Ek. bind_inv H ks lks Eks.
    unfold ret in H. injection H as <- _. cbn. f_equal. exact (IH _ _ Eks).
Qed.

(** The keys that are bound when the loop over the [key] sections
    returns: one for each section, in the order of the sections, and
    nothing is written.  The mask of a key is the OR of the masks of
    its modifiers and sets no bit above the eight modifier bits; its
    key symbol is what [XStringToKeysym] makes of the [key] string; its
    function is what [name_func_lookup] finds for the command in
    [KeyfuncList], the null pointer for a command that is not there;
    its argument is that of the section, null when the section has
    none. *)
Theorem keys_loop_bound (disp : Display) (secs : list Cfg.key)
  (keys : list Key.t) (log : list string) :
  keys_loop disp secs = Ret keys log ->
  log = []
  /\ List.length keys = List.length secs
  /\ forall (i : nat) (sec : Cfg.key),
       nth_error secs i = Some sec ->
       exists k : Key.t,
         nth_error keys i = Some k
         /\ Key.mod_ k
            = fold_left Z.lor
                (map mask_of
                   (cfg_strlist (Cfg.key_modkey sec) Schema.key_modkey)) 0
         /\ 0 <= Key.mod_ k < 256
         /\ Key.keysym k
            = XStringToKeysym disp
                (cfg_getstr (Cfg.key_key sec) Schema.key_key)
         /\ name_func_lookup
              (cfg_getstr (Cfg.key_command sec) Schema.key_command)
              (Some KeyfuncList) = Ret (Key.func k) []
         /\ Key.arg k = Cfg.key_arg sec.
Proof.
  intros H. split.
  { pose proof (quiet_keys_loop disp secs) as Q. now rewrite H in Q. }
  split; [exact (keys_loop_length _ _ H)|].
  intros i sec Hi.
  destruct (@keys_loop_Ret _ _ _ _ H i sec Hi) as (k & lk & Hk & Pk).
  exists k. split; [exact Hk|].
  pose proof (is_undef_parse_key disp sec) as U. rewrite Pk in U. cbn in U.
  symmetry in U. apply negb_false_iff in U.
  apply parse_key_Ret in Pk as (m & lm & f & lf & Em & Ef & ->).
  rewrite (modkey_loop_resolved _ _ U) in Em. injection Em as <- _.
  cbn [Key.mod_ Key.keysym Key.func Key.arg].
  split; [reflexivity|]. split.
  { apply fold_lor_below_256; [lia|]. apply Forall_forall. intros x Hx.
    apply in_map_iff in Hx as (n & <- & _). apply mask_of_below_256. }
  split; [reflexivity|]. split.
  { pose proof (quiet_keyfunc_lookup
                  (cfg_getstr (Cfg.key_command sec) Schema.key_command)) as Q.
    rewrite Ef in Q |- *. cbn in Q. now subst lf. }
  now destruct (Cfg.key_arg sec).
Qed.

Lemma keys_loop_bound_witness :
  keys_loop display_defaults_only
    [Cfg.mk_key (Some ["Mod4"; "Shift"]) (Some "Return") (Some "spawn")
       (Some "xterm");
     Cfg.mk_key None None (Some "nothing") None]
  = Ret [Key.mk 65 1 (Some uicb_spawn) (Some "xterm");
         Key.mk 64 0 None None] []
  /\ ([] : list string) = [].
Proof.
  split; [reflexivity|].
  exact (proj1 (@keys_loop_bound display_defaults_only
                  [Cfg.mk_key (Some ["Mod4"; "Shift"]) (Some "Return")
                     (Some "spawn") (Some "xterm");
                   Cfg.mk_key None None (Some "nothing") None]
                  [Key.mk 65 1 (Some uicb_spawn) (Some "xterm");
                   Key.mk 64 0 None None] [] eq_refl)).
Defined.

(** ** Rules *)

Lemma a_strlen_zero (s : string) : (a_strlen (Some s) =? 0) = String.eqb s "".
Proof. destruct s; [reflexivity|]. cbn [a_strlen String.length]. now cbn. Qed.

(** The rules that are bound: one for each [rule] section, in the
    order of the sections.  The name and the float flag are those of
    the section, or else [""] and false.  The tags are those of the
    section when it has tags that are not the empty string, and null
    otherwise: no rule is bound with empty tags. *)
Theorem parse_rules_bound (cfg_rules : list Cfg.rule) :
  List.length (parse_rules cfg_rules) = List.length cfg_rules
  /\ forall (i : nat) (sec : Cfg.rule),
       nth_error cfg_rules i = Some sec ->
       exists r : Rule.t,
         nth_error (parse_rules cfg_rules) i = Some r
         /\ Rule.prop r
            = Some (match Cfg.rule_name sec with
                    | Some n => n
                    | None => ""
                    end)
         /\ Rule.isfloating r
            = match Cfg.rule_float sec with
              | Some b => b
              | None => false
              end
         /\ Rule.tags r
            = match Cfg.rule_tags sec with
              | Some t => if String.eqb t "" then None else Some t
              | None => None
              end
         /\ Rule.tags r <> Some "".
Proof.
  split; [apply length_map|]. intros i sec Hi.
  exists (parse_rule sec). split; [now apply map_nth_error|].
  unfold parse_rule, a_strdup.
  cbn [Rule.prop Rule.tags Rule.isfloating].
  split; [now destruct (Cfg.rule_name sec)|].
  split; [now destruct (Cfg.rule_float sec)|].
  destruct (Cfg.rule_tags sec) as [t|]; cbn [cfg_getstr Schema.rule_tags].
  - rewrite a_strlen_zero.
    destruct (String.eqb_spec t "") as [->|N]; split; congruence.
  - split; [reflexivity|discriminate].
Qed.

(** ** Statusbar: the three classes *)

(** The position of the statusbar is [BarOff] for the string ["off"]
    and for no other, [BarBot] for the strings that start with
    ["bottom"] and for no other, and [BarTop] for every other string
    and for the null pointer. *)
Theorem statusbar_position_classes (tmp : option string) :
  (statusbar_position_of tmp = BarOff <-> tmp = Some "off")
  /\ (statusbar_position_of tmp = BarBot
      <-> exists s, tmp = Some s /\ String.prefix "bottom" s = true)
  /\ (statusbar_position_of tmp = BarTop
      <-> tmp <> Some "off"
          /\ forall s, tmp = Some s -> String.prefix "bottom" s = false).
Proof.
  destruct tmp as [s|].
  - rewrite statusbar_position_of_cases.
    destruct (String.eqb_spec s "off") as [->|N].
    + split; [tauto|]. split.
      * split; [discriminate|]. intros (s & E & P). injection E as <-.
        discriminate P.
      * split; [discriminate|]. intros [A _]. congruence.
    + destruct (String.prefix "bottom" s) eqn:P.
      * split; [split; [discriminate|congruence]|]. split.
        -- split; [|reflexivity]. intros _. now exists s.
        -- split; [discriminate|]. intros [_ A].
           specialize (A s eq_refl). congruence.
      * split; [split; [discriminate|congruence]|]. split.
        -- split; [discriminate|]. intros (s' & E & P'). injection E as <-.
           congruence.
        -- split; [|reflexivity]. intros _. split; [congruence|].
           intros s' E. injection E as <-. exact P.
  - cbn. split; [split; discriminate|]. split.
    + split; [discriminate|]. intros (s & E & _). discriminate E.
    + split; [|reflexivity]. intros _. split; [discriminate|].
      intros s E. discriminate E.
Qed.

(** ** Layouts: the diagnostics *)

Lemma arrange_bound_layout (sec : Cfg.layout) :
  name_func_lookup (Some (Cfg.layout_title sec)) (Some LayoutsList)
  = Ret (Layout.arrange (bound_layout sec)) [].
Proof.
  rewrite layout_lookup_resolve. unfold bound_layout.
  now destruct (flatten (resolve (entries LayoutsList)
                           (Some (Cfg.layout_title sec)))).
Qed.

Lemma unknown_layouts_inv (secs : list Cfg.layout) (i : Z) (msg : string) :
  In msg (unknown_layouts i secs) ->
  exists (k : nat) (sec : Cfg.layout),
    nth_error secs k = Some sec
    /\ Layout.arrange (bound_layout sec) = None
    /\ msg = unknown_layout (i + Z.of_nat k).
Proof.
  revert i. induction secs as [|s rest IH]; intros i H; [contradiction|].
  cbn [unknown_layouts] in H.
  assert (In msg (unknown_layouts (i + 1) rest) ->
          exists k sec, nth_error (s :: rest) k = Some sec
                        /\ Layout.arrange (bound_layout sec) = None
                        /\ msg = unknown_layout (i + Z.of_nat k)) as Hrest.
  { intros I. destruct (IH _ I) as (k & sec & Hk & Ha & ->).
    exists (S k), sec. split; [exact Hk|]. split; [exact Ha|].
    f_equal. lia. }
  destruct (Layout.arrange (bound_layout s)) eqn:Ea; [now apply Hrest|].
  destruct H as [<-|H]; [|now apply Hrest].
  exists 0%nat, s. split; [reflexivity|]. split; [exact Ea|].
  f_equal. lia.
Qed.

Lemma unknown_layouts_length (secs : list Cfg.layout) (i : Z) :
  List.length (unknown_layouts i secs)
  = List.length (filter unknown_title secs).
Proof.
  revert i. induction secs as [|s rest IH]; intros i; [reflexivity|].
  cbn [unknown_layouts filter]. unfold unknown_title at 1.
  destruct (Layout.arrange (bound_layout s)); cbn; now rewrite IH.
Qed.

(** What the loop over the [layout] sections writes: the diagnostic
    with the index [k] for every section [k] whose title
    [name_func_lookup] does not find in [LayoutsList], and nothing else;
    as many lines as there are such sections. *)
Theorem layouts_diagnostics (secs : list Cfg.layout) :
  (forall msg : string,
      In msg (stderr_of (layouts_loop 0 secs))
      <-> exists (k : nat) (sec : Cfg.layout),
            nth_error secs k = Some sec
            /\ name_func_lookup (Some (Cfg.layout_title sec))
                 (Some LayoutsList) = Ret None []
            /\ msg = unknown_layout (Z.of_nat k))
  /\ List.length (stderr_of (layouts_loop 0 secs))
     = List.length (filter unknown_title secs).
Proof.
  rewrite layouts_loop_eq. cbn [stderr_of].
  split; [|apply unknown_layouts_length].
  intros msg. split.
  - intros H. apply unknown_layouts_inv in H as (k & sec & Hk & Ha & ->).
    exists k, sec. split; [exact Hk|]. split; [|reflexivity].
    now rewrite arrange_bound_layout, Ha.
  - intros (k & sec & Hk & Ha & ->).
    rewrite arrange_bound_layout in Ha. injection Ha as Ha.
    exact (unknown_layouts_In secs 0 k Hk Ha).
Qed.

(** ** What is written before an exit *)

Lemma parse_error_Ret (parse_error : bool) :
  (if parse_error
   then fprintf_stderr ("awesome: error parsing configuration file" ++ nl)
   else ret tt)
  = Ret tt (parse_error_log parse_error).
Proof. now destruct parse_error. Qed.

(** The four exits of [parse_config] and what has been written at each:
    always first the diagnostic of the parse error, if there was one.
    The font is looked at first, and its diagnostic is then the only
    other line.  The colours come next, in the order of
    [color_names]: the diagnostic names the first that cannot be
    allocated.  Then the layouts: the diagnostics of the unknown
    layouts, and the line of the missing default layout.  Then the
    tags: the diagnostics of the unknown layouts, and the line of the
    missing tags. *)
Theorem parse_config_exit_log (disp : Display) (scr : Z) (parse_error : bool)
  (cfg : Cfg.t) :
  let secs := Cfg.layout_secs (Cfg.sec_layouts cfg) in
  (font_opens disp scr cfg = false ->
   parse_config disp scr parse_error cfg
   = Exit (parse_error_log parse_error ++ [cannot_init_font]))
  /\ (font_opens disp scr cfg = true ->
      forall name : option string,
        find (fun n =>
                negb (is_some
                        (XAllocNamedColor disp (get_phys_screen disp scr) n)))
          (color_names (Cfg.sec_colors cfg)) = Some name ->
        parse_config disp scr parse_error cfg
        = Exit (parse_error_log parse_error ++ [cannot_allocate name]))
  /\ (font_opens disp scr cfg = true ->
      colors_allocate disp scr cfg = true ->
      default_layout_usable cfg = false ->
      parse_config disp scr parse_error cfg
      = Exit (parse_error_log parse_error
              ++ unknown_layouts 0 secs ++ [no_default_layout]))
  /\ (font_opens disp scr cfg = true ->
      colors_allocate disp scr cfg = true ->
      default_layout_usable cfg = true ->
      has_tags cfg = false ->
      parse_config disp scr parse_error cfg
      = Exit (parse_error_log parse_error
              ++ unknown_layouts 0 secs ++ [no_tags])).
Proof.
  cbn zeta.
  unfold font_opens, colors_allocate, color_names, parse_config, initxcolor.
  cbn [forallb find]. rewrite parse_error_Ret, parse_layouts_eq, parse_tags_eq.
  destruct (XftFontOpenName disp (get_phys_screen disp scr)
              (cfg_getstr (Cfg.font (Cfg.sec_general cfg)) Schema.font));
    cbn [is_some].
  2:{ split; [reflexivity|]. repeat split; discriminate. }
  split; [discriminate|]. split; [intros _ name|split; intros _].
  - repeat match goal with
           | |- context [XAllocNamedColor ?d ?s ?n] =>
               destruct (XAllocNamedColor d s n) eqn:?; cbn [is_some negb]
           end;
      try discriminate; injection 1 as <-; reflexivity.
  - intros Hc Hl. rewrite Hl.
    repeat match type of Hc with
           | context [XAllocNamedColor ?d ?s ?n] =>
               destruct (XAllocNamedColor d s n) eqn:?;
               cbn [is_some andb] in Hc; [|discriminate]
           end.
    cbn. rewrite ?app_nil_r. reflexivity.
  - intros Hc Hl Ht. rewrite Hl, Ht.
    repeat match type of Hc with
           | context [XAllocNamedColor ?d ?s ?n] =>
               destruct (XAllocNamedColor d s n) eqn:?;
               cbn [is_some andb] in Hc; [|discriminate]
           end.
    cbn. rewrite ?app_nil_r. reflexivity.
Qed.

Lemma parse_config_exit_log_witness :
  default_layout_usable
    (Cfg.mk (Cfg.sec_general cfg_nothing_set) (Cfg.sec_colors cfg_nothing_set)
       (Cfg.sec_statusbar cfg_nothing_set) []
       (Cfg.mk_layouts [Cfg.mk_layout "bogus" None; Cfg.mk_layout "tile" None]
          None None None)
       [] (Cfg.sec_keys cfg_nothing_set)) = false
  /\ parse_config display_defaults_only 0 true
       (Cfg.mk (Cfg.sec_general cfg_nothing_set)
          (Cfg.sec_colors cfg_nothing_set)
          (Cfg.sec_statusbar cfg_nothing_set) []
          (Cfg.mk_layouts
             [Cfg.mk_layout "bogus" None; Cfg.mk_layout "tile" None]
             None None None)
          [] (Cfg.sec_keys cfg_nothing_set))
     = Exit (parse_error_log true
             ++ [unknown_layout 0] ++ [no_default_layout]).
Proof.
  split; [reflexivity|].
  exact (proj1 (proj2 (proj2
           (@parse_config_exit_log display_defaults_only 0 true
              (Cfg.mk (Cfg.sec_general cfg_nothing_set)
                 (Cfg.sec_colors cfg_nothing_set)
                 (Cfg.sec_statusbar cfg_nothing_set) []
                 (Cfg.mk_layouts
                    [Cfg.mk_layout "bogus" None; Cfg.mk_layout "tile" None]
                    None None None)
                 [] (Cfg.sec_keys cfg_nothing_set)))))
           eq_refl eq_refl eq_refl).
Defined.

(** ** What a run that returns has bound *)

Lemma parse_modkey_bit (cfg_keys : Cfg.keys) (m : Z) (log : list string) :
  parse_modkey cfg_keys = Ret m log ->
  exists i, 0 <= i < 8 /\ m = 2 ^ i.
Proof.
  unfold parse_modkey. intros H. bind_inv H tmp_key l E.
  unfold ret in H. injection H as <- _.
  destruct (cfg_getstr (Cfg.modkey cfg_keys) Schema.modkey) as [s|].
  - apply key_mask_lookup_In in E as [E _]. cbn in E.
    repeat (destruct E as [E|E]; [injection E as _ <-|]); try contradiction.
    + now exists 0.
    + now exists 1.
    + now exists 2.
    + now exists 3.
    + now exists 4.
    + now exists 5.
    + now exists 6.
    + now exists 7.
    + now exists 6.
  - cbn in E. injection E as <- _. now exists 6.
Qed.

(** The masks of a run that returns: the primary modifier is one of
    the eight modifier bits, never zero; the mask of Num Lock is zero
    or one of these bits; the mask of a key sets none but these bits. *)
Theorem parse_config_masks (disp : Display) (scr : Z) (parse_error : bool)
  (cfg : Cfg.t) (dc : DC.t) (conf : awesome_config) (log : list string) :
  parse_config disp scr parse_error cfg = Ret (dc, conf) log ->
  (exists i, 0 <= i < 8 /\ modkey conf = 2 ^ i)
  /\ (numlockmask conf = 0
      \/ exists i, 0 <= i < 8 /\ numlockmask conf = 2 ^ i)
  /\ Forall (fun k => 0 <= Key.mod_ k < 256) (keys conf).
Proof.
  intros H.
  apply parse_config_Ret in H
    as (font & nb & nbg & fb & fbg & nfg & ffg & lays & l1 & tgs & l2
        & mk & l3 & numlock & l4 & ks & l5 & _ & _ & _ & _
        & _ & _ & _ & _ & _ & Em & En & Ek & _ & ->).
  cbn [modkey numlockmask keys].
  split; [exact (parse_modkey_bit _ Em)|]. split.
  - assert (modmap_complete (XGetModifierMapping disp)) as C
      by (apply numlockmask_defined_complete; now rewrite En).
    rewrite (get_numlockmask_eq disp C) in En.
    pose proof (fold_left_choice (row_holds disp) (fun i => Z.shiftl 1 i)
                  (range 8) 0) as Hc.
    cbv beta zeta in Hc. destruct Hc as [E|[i [Hi [_ E]]]];
      rewrite E in En.
    + left. congruence.
    + right. exists i. apply range_bounds in Hi. split; [exact Hi|].
      rewrite <- Z.shiftl_1_l. congruence.
  - apply Forall_forall. intros k Hk.
    apply In_nth_error in Hk as [i Hi].
    assert (i < List.length (Cfg.key_secs (Cfg.sec_keys cfg)))%nat as Hlt.
    { rewrite <- (keys_loop_length _ _ Ek). apply nth_error_Some. congruence. }
    destruct (nth_error (Cfg.key_secs (Cfg.sec_keys cfg)) i) as [sec|] eqn:Es;
      [|apply nth_error_None in Es; lia].
    destruct (@keys_loop_Ret _ _ _ _ Ek i sec Es) as (k' & lk & Hk' & Pk).
    assert (k' = k) by congruence. subst k'.
    pose proof (is_undef_parse_key disp sec) as U. rewrite Pk in U. cbn in U.
    symmetry in U. apply negb_false_iff in U.
    apply parse_key_Ret in Pk as (m & lm & f & lf & Em' & _ & ->).
    rewrite (modkey_loop_resolved _ _ U) in Em'. injection Em' as <- _.
    cbn [Key.mod_]. apply fold_lor_below_256; [lia|].
    apply Forall_forall. intros x Hx.
    apply in_map_iff in Hx as (n & <- & _). apply mask_of_below_256.
Qed.

(** The counts of a run that returns are the lengths of the arrays
    that are bound, and there are as many layouts, rules, tags and keys
    as the file has sections of each. *)
Theorem parse_config_counts (disp : Display) (scr : Z) (parse_error : bool)
  (cfg : Cfg.t) (dc : DC.t) (conf : awesome_config) (log : list string) :
  parse_config disp scr parse_error cfg = Ret (dc, conf) log ->
  (nlayouts conf = Z.of_nat (List.length (layouts conf))
   /\ List.length (layouts conf)
      = List.length (Cfg.layout_secs (Cfg.sec_layouts cfg)))
  /\ (nrules conf = Z.of_nat (List.length (rules conf))
      /\ List.length (rules conf) = List.length (Cfg.sec_rules cfg))
  /\ (ntags conf = Z.of_nat (List.length (tags conf))
      /\ List.length (tags conf) = List.length (Cfg.sec_tags cfg))
  /\ (nkeys conf = Z.of_nat (List.length (keys conf))
      /\ List.length (keys conf)
         = List.length (Cfg.key_secs (Cfg.sec_keys cfg))).
Proof.
  intros H.
  apply parse_config_Ret in H
    as (font & nb & nbg & fb & fbg & nfg & ffg & lays & l1 & tgs & l2
        & mk & l3 & numlock & l4 & ks & l5 & _ & _ & _ & _
        & _ & _ & _ & El & Et & _ & _ & Ek & _ & ->).
  cbn [nlayouts layouts nrules rules ntags tags nkeys keys].
  apply parse_layouts_Ret in El as [-> _].
  apply keys_loop_length in Ek.
  assert (List.length tgs = List.length (Cfg.sec_tags cfg)) as Ht.
  { unfold parse_tags in Et. destruct (Cfg.sec_tags cfg) as [|t0 rest];
      [discriminate|].
    cbn in Et. injection Et as <- _. cbn. unfold tags_loop.
    now rewrite length_map. }
  unfold cfg_size, parse_rules. rewrite !length_map, Ek, Ht.
  repeat split.
Qed.

Lemma parse_config_masks_witness :
  exists (dc : DC.t) (conf : awesome_config) (log : list string),
    parse_config display_defaults_only 0 false cfg_nothing_set
    = Ret (dc, conf) log
    /\ (exists i, 0 <= i < 8 /\ modkey conf = 2 ^ i)
    /\ (numlockmask conf = 0
        \/ exists i, 0 <= i < 8 /\ numlockmask conf = 2 ^ i)
    /\ Forall (fun k => 0 <= Key.mod_ k < 256) (keys conf).
Proof.
  eexists. eexists. eexists. split; [vm_compute; reflexivity|].
  eapply (@parse_config_masks display_defaults_only 0 false cfg_nothing_set).
  vm_compute. reflexivity.
Defined.

Lemma parse_config_counts_witness :
  exists (dc : DC.t) (conf : awesome_config) (log : list string),
    parse_config display_defaults_only 0 false cfg_nothing_set
    = Ret (dc, conf) log
    /\ (nlayouts conf = Z.of_nat (List.length (layouts conf))
        /\ List.length (layouts conf)
           = List.length (Cfg.layout_secs (Cfg.sec_layouts cfg_nothing_set)))
    /\ (nrules conf = Z.of_nat (List.length (rules conf))
        /\ List.length (rules conf)
           = List.length (Cfg.sec_rules cfg_nothing_set))
    /\ (ntags conf = Z.of_nat (List.length (tags conf))
        /\ List.length (tags conf)
           = List.length (Cfg.sec_tags cfg_nothing_set))
    /\ (nkeys conf = Z.of_nat (List.length (keys conf))
        /\ List.length (keys conf)
           = List.length (Cfg.key_secs (Cfg.sec_keys cfg_nothing_set))).
Proof.
  eexists. eexists. eexists. split; [vm_compute; reflexivity|].
  eapply (@parse_config_counts display_defaults_only 0 false
            cfg_nothing_set).
  vm_compute. reflexivity.
Defined.

Lemma parse_config_invariants_witness :
  exists (dc : DC.t) (conf : awesome_config) (log : list string),
    parse_config display_defaults_only 0 false cfg_nothing_set
    = Ret (dc, conf) log
    /\ (exists l0 f,
           nth_error (layouts conf) 0 = Some l0 /\ Layout.arrange l0 = Some f
           /\ Forall (fun t => nth_error (layouts conf) (Tag.layout t) = Some l0)
                (tags conf))
    /\ (exists t0 rest,
           tags conf = t0 :: rest
           /\ Tag.selected t0 = true /\ Tag.was_selected t0 = true
           /\ Forall (fun t => Tag.selected t = false
                               /\ Tag.was_selected t = false) rest)
    /\ nlayouts conf = Z.of_nat (List.length (layouts conf))
    /\ ntags conf = Z.of_nat (List.length (tags conf)).
Proof.
  eexists. eexists. eexists. split; [vm_compute; reflexivity|].
  eapply (@parse_config_invariants display_defaults_only 0 false
            cfg_nothing_set).
  vm_compute. reflexivity.
Defined.

(** ** Tags: the layout option *)

Lemma tags_loop_titles (tags1 tags2 : list Cfg.tag) :
  map Cfg.tag_title tags1 = map Cfg.tag_title tags2 ->
  tags_loop tags1 = tags_loop tags2.
Proof.
  unfold tags_loop. intros H.
  rewrite <- (map_map Cfg.tag_title
                (fun title => Tag.mk (a_strdup (Some title)) false false 0%nat)
                tags1),
          <- (map_map Cfg.tag_title
                (fun title => Tag.mk (a_strdup (Some title)) false false 0%nat)
                tags2).
  now rewrite H.
Qed.

(** The [layout] option of a [tag] section is never read: two files
    that differ only in the layouts of their tags are bound alike,
    every tag being given the first layout. *)
Theorem tag_layout_is_not_read (disp : Display) (scr : Z) (parse_error : bool)
  (g : Cfg.general) (c : Cfg.colors) (s : Cfg.statusbar)
  (l : Cfg.layouts) (r : list Cfg.rule) (k : Cfg.keys)
  (tags1 tags2 : list Cfg.tag) :
  map Cfg.tag_title tags1 = map Cfg.tag_title tags2 ->
  parse_config disp scr parse_error (Cfg.mk g c s tags1 l r k)
  = parse_config disp scr parse_error (Cfg.mk g c s tags2 l r k).
Proof.
  intros H. unfold parse_config, parse_tags, cfg_size. cbn [Cfg.sec_tags].
  rewrite (tags_loop_titles _ _ H).
  replace (List.length tags1) with (List.length tags2); [reflexivity|].
  now rewrite <- (length_map Cfg.tag_title tags2), <- H, length_map.
Qed.

Lemma tag_layout_is_not_read_witness :
  parse_config display_defaults_only 0 false
    (Cfg.mk (Cfg.sec_general cfg_nothing_set) (Cfg.sec_colors cfg_nothing_set)
       (Cfg.sec_statusbar cfg_nothing_set)
       [Cfg.mk_tag "one" (Some "max"); Cfg.mk_tag "two" (Some "bogus")]
       (Cfg.sec_layouts cfg_nothing_set) (Cfg.sec_rules cfg_nothing_set)
       (Cfg.sec_keys cfg_nothing_set))
  = parse_config display_defaults_only 0 false
      (Cfg.mk (Cfg.sec_general cfg_nothing_set)
         (Cfg.sec_colors cfg_nothing_set)
         (Cfg.sec_statusbar cfg_nothing_set)
         [Cfg.mk_tag "one" None; Cfg.mk_tag "two" None]
         (Cfg.sec_layouts cfg_nothing_set) (Cfg.sec_rules cfg_nothing_set)
         (Cfg.sec_keys cfg_nothing_set)).
Proof.
  apply (@tag_layout_is_not_read display_defaults_only 0 false). reflexivity.
Defined.
